(** * liveMediaStreamer: the AV frame circular queue

    A shallow embedding of [src/AVFramedQueue.cpp] (class [AVFramedQueue] and
    its subclasses [VideoFrameQueue] and [AudioFrameQueue]) together with the
    queue mock-up of [unitTests/FilterMockup.hh], and the properties of the
    frame-exchange fabric that the specification states about them.

    Conventions.
    - [unsigned] is a 32-bit word, kept as a [Z] with the wrap-around of every
      arithmetic operation written out ([uadd], [usub]).
    - A method of the class is a computation in the monad [M S] over the
      object it acts on; a computation either returns a value and the new
      state, or is undefined (remainder by zero, access outside the [frames]
      array), or runs out of loop fuel.
    - A [Frame*] is [NULL] or the address of a frame; the frames themselves
      live in a [Heap]. *)

From Stdlib Require Import ZArith Lia.
From stdpp Require Import base decidable list gmap.

Local Open Scope Z_scope.

(** ** Machine integers *)

Definition UINT_MODULUS : Z := 2 ^ 32.

Definition wrap (z : Z) : Z := z `mod` UINT_MODULUS.

(** [a + b] and [a - b] on [unsigned] operands. *)
Definition uadd (a b : Z) : Z := wrap (a + b).
Definition usub (a b : Z) : Z := wrap (a - b).

(** ** Computations over an object *)

Inductive outcome (S A : Type) : Type :=
| Ret (a : A) (s : S)
| Undefined
| OutOfFuel.

Arguments Ret {S A} a s.
Arguments Undefined {S A}.
Arguments OutOfFuel {S A}.

Definition M (S A : Type) : Type := S -> outcome S A.

Definition ret {S A} (a : A) : M S A := fun s => Ret a s.

Definition bind {S A B} (m : M S A) (k : A -> M S B) : M S B :=
  fun s =>
    match m s with
    | Ret a s' => k a s'
    | Undefined => Undefined
    | OutOfFuel => OutOfFuel
    end.

Definition gets {S A} (f : S -> A) : M S A := fun s => Ret (f s) s.
Definition modify {S} (f : S -> S) : M S unit := fun s => Ret tt (f s).
Definition undefined {S A} : M S A := fun _ => Undefined.
Definition out_of_fuel {S A} : M S A := fun _ => OutOfFuel.

Notation "'let*' x := m 'in' k" := (bind m (fun x => k))
  (at level 10, x name, m at level 100, k at level 200).
Notation "m >> k" := (bind m (fun _ => k))
  (at level 100, k at level 200, right associativity).

(** [a % b] on [unsigned] operands; the remainder by zero is undefined. *)
Definition urem {S} (a b : Z) : M S Z :=
  if decide (b = 0) then undefined else ret (a `mod` b).

(** The value returned by a computation, when there is one. *)
Definition value {S A} (o : outcome S A) : option A :=
  match o with Ret a _ => Some a | _ => None end.

(** ** Frames and connections *)

Inductive FramePtr : Type :=
| NULL
| FrameAt (a : nat).

Global Instance FramePtr_eq_dec : EqDecision FramePtr.
Proof. solve_decision. Defined.

(** Modelled from the spec: [struct ConnectionData] is declared in a header
    that is not among the sources.  The spec gives its four fields, "all small
    integers": the ids of the producing (writer) filter and of its writer, and
    the ids of the consuming (reader) filter and of its reader. *)
Record ConnectionData : Type := mkConnectionData {
  wFilterId : Z;
  writerId : Z;
  rFilterId : Z;
  readerId : Z
}.

(** ** AVFramedQueue *)

(** The fields of [AVFramedQueue]: [connectionData], [rear] and [front] come
    from the base class [FrameQueue], [frames] is the array of slots and [max]
    the number of slots in use. *)
Record AVFramedQueue : Type := mkAVFramedQueue {
  connectionData : ConnectionData;
  rear : Z;
  front : Z;
  frames : list FramePtr;
  max : Z
}.

Definition set_rear (r : Z) (q : AVFramedQueue) : AVFramedQueue :=
  mkAVFramedQueue (connectionData q) r (front q) (frames q) (max q).

Definition set_front (f : Z) (q : AVFramedQueue) : AVFramedQueue :=
  mkAVFramedQueue (connectionData q) (rear q) f (frames q) (max q).

Definition set_frames (fs : list FramePtr) (q : AVFramedQueue) : AVFramedQueue :=
  mkAVFramedQueue (connectionData q) (rear q) (front q) fs (max q).

(** [frames[i]]; reading outside the array is undefined. *)
Definition slot (i : Z) : M AVFramedQueue FramePtr :=
  fun q =>
    match frames q !! Z.to_nat i with
    | Some p => Ret p q
    | None => Undefined
    end.

(** [AVFramedQueue::AVFramedQueue(cData, maxFrames)].  The constructor leaves
    the array as the storage holds it ([slots]).
    Modelled from the spec: the constructor of the base class [FrameQueue] is
    not among the sources; a queue starts empty ("empty iff front == rear"),
    here with both cursors at slot 0. *)
Definition AVFramedQueue_new (slots : list FramePtr) (cData : ConnectionData)
    (maxFrames : Z) : AVFramedQueue :=
  mkAVFramedQueue cData 0 0 slots maxFrames.

Definition getRear : M AVFramedQueue FramePtr :=
  let* r := gets rear in let* m := gets max in let* f := gets front in
  let* i := urem (uadd r 1) m in
  if decide (i = f) then ret NULL else slot r.

Definition getFront : M AVFramedQueue FramePtr :=
  let* r := gets rear in let* f := gets front in
  if decide (r = f) then ret NULL else slot f.

Definition addFrame : M AVFramedQueue Z :=
  let* r := gets rear in let* m := gets max in
  let* i := urem (uadd r 1) m in
  modify (set_rear i) >>
  let* cd := gets connectionData in
  ret (rFilterId cd).

Definition removeFrame : M AVFramedQueue Z :=
  let* f := gets front in let* m := gets max in
  let* i := urem (uadd f 1) m in
  modify (set_front i) >>
  let* cd := gets connectionData in
  ret (wFilterId cd).

Definition flush : M AVFramedQueue unit :=
  let* r := gets rear in let* m := gets max in
  let* i := urem (uadd r (usub m 1)) m in
  modify (set_rear i).

(** [forceGetRear]: the [while] loop, one unit of fuel for each evaluation of
    its condition.  [utils::debugMsg] only prints a diagnostic. *)
Fixpoint forceGetRear (fuel : nat) : M AVFramedQueue FramePtr :=
  match fuel with
  | O => out_of_fuel
  | S fuel' =>
      let* frame := getRear in
      if decide (frame = NULL)
      then flush >> forceGetRear fuel'
      else ret frame
  end.

Definition forceGetFront : M AVFramedQueue FramePtr :=
  let* f := gets front in let* m := gets max in
  let* i := urem (uadd f (usub m 1)) m in
  slot i.

Definition getElements : M AVFramedQueue Z :=
  let* f := gets front in let* r := gets rear in let* m := gets max in
  if decide (r < f) then ret (uadd (usub m f) r) else ret (usub r f).

(** ** Frame shape descriptors *)

(** Modelled from the spec: the enumerations [VCodecType], [PixType],
    [ACodecType] and [SampleFmt] are declared in a header that is not among
    the sources.  The spec lists the enumerators below; the last constructor
    of each type stands for every further enumerator (the [default] and
    [else] branches of the two [setup] methods). *)
Inductive VCodecType : Type := H264 | H265 | VP8 | RAW | VC_other (tag : Z).
Inductive PixType : Type :=
  YUV420P | YUV422P | YUV444P | RGB24 | RGBA | P_NONE | P_other (tag : Z).
Inductive ACodecType : Type :=
  OPUS | AAC | MP3 | PCM | PCMU | G711 | AC_other (tag : Z).
Inductive SampleFmt : Type :=
  U8 | S16 | FLT | U8P | S16P | FLTP | S_other (tag : Z).

Global Instance PixType_eq_dec : EqDecision PixType.
Proof. solve_decision. Defined.
Global Instance SampleFmt_eq_dec : EqDecision SampleFmt.
Proof. solve_decision. Defined.

(** Modelled from the spec: the defaults of section 6. *)
Definition DEFAULT_WIDTH : Z := 1920.
Definition DEFAULT_HEIGHT : Z := 1080.

(** ** Frames *)

(** What a frame was created as: the arguments of the [createNew] that made
    it.  The frame classes themselves are not among the sources. *)
Inductive FrameShape : Type :=
| FrameMock
| InterleavedVideoBuffer (codec : VCodecType) (maxLength : Z)
| InterleavedVideoPicture (codec : VCodecType) (width height : Z) (pixelFormat : PixType)
| InterleavedAudioFrame (channels sampleRate maxSamples : Z) (codec : ACodecType)
    (sampleFormat : SampleFmt)
| PlanarAudioFrame (channels sampleRate maxSamples : Z) (codec : ACodecType)
    (sampleFormat : SampleFmt).

Record Frame : Type := mkFrame {
  shape : FrameShape;
  sequenceNumber : Z
}.

Record Heap : Type := mkHeap {
  cells : gmap nat Frame;
  next : nat
}.

Definition empty_heap : Heap := mkHeap ∅ 0.

(** [new]: a frame at an address not handed out before. *)
Definition alloc (f : Frame) (h : Heap) : FramePtr * Heap :=
  (FrameAt (next h), mkHeap (<[next h := f]> (cells h)) (S (next h))).

Definition deref (p : FramePtr) (h : Heap) : option Frame :=
  match p with
  | NULL => None
  | FrameAt a => cells h !! a
  end.

(** [Frame::setSequenceNumber], through a pointer; through [NULL] it is
    undefined. *)
Definition setSequenceNumber (p : FramePtr) (seqNum : Z) : M Heap unit :=
  fun h =>
    match p with
    | NULL => Undefined
    | FrameAt a =>
        match cells h !! a with
        | Some f => Ret tt (mkHeap (<[a := mkFrame (shape f) seqNum]> (cells h)) (next h))
        | None => Undefined
        end
    end.

(** The sequence number read through a pointer. *)
Definition seq_of (h : Heap) (p : FramePtr) : option Z :=
  sequenceNumber <$> deref p h.

(** A method of a queue that also allocates works on the heap and the
    object. *)
Definition on_heap {S A} (m : M Heap A) : M (Heap * S) A :=
  fun hs =>
    match m (fst hs) with
    | Ret a h' => Ret a (h', snd hs)
    | Undefined => Undefined
    | OutOfFuel => OutOfFuel
    end.

Definition on_object {S A} (m : M S A) : M (Heap * S) A :=
  fun hs =>
    match m (snd hs) with
    | Ret a s' => Ret a (fst hs, s')
    | Undefined => Undefined
    | OutOfFuel => OutOfFuel
    end.

(** [frames[i] = p]; writing outside the array is undefined. *)
Definition store_slot (i : nat) (p : FramePtr) : M AVFramedQueue unit :=
  fun q =>
    if decide (i < length (frames q))%nat
    then Ret tt (set_frames (<[i := p]> (frames q)) q)
    else Undefined.

(** [for (unsigned i = 0; i < max; i++) frames[i] = create(i)], with [n]
    iterations left from index [i]. *)
Fixpoint fill_frames (create : nat -> Frame) (n i : nat) : M (Heap * AVFramedQueue) unit :=
  match n with
  | O => ret tt
  | S n' =>
      let* p := on_heap (fun h => let '(p, h') := alloc (create i) h in Ret p h') in
      on_object (store_slot i p) >>
      fill_frames create n' (S i)
  end.

Definition fill_all (create : nat -> Frame) : M (Heap * AVFramedQueue) unit :=
  let* m := on_object (gets max) in
  fill_frames create (Z.to_nat m) 0.

(** ** The destructor *)

(** [delete p]: nothing for the null pointer; the frame at [p] is given
    back to the heap; deleting what is not a live frame is undefined. *)
Definition delete_frame (p : FramePtr) : M Heap unit :=
  fun h =>
    match p with
    | NULL => Ret tt h
    | FrameAt a =>
        match cells h !! a with
        | Some _ => Ret tt (mkHeap (delete a (cells h)) (next h))
        | None => Undefined
        end
    end.

(** [for (unsigned i = 0; i < max; i++) delete frames[i]], with [n]
    iterations left from index [i]. *)
Fixpoint delete_frames (n i : nat) : M (Heap * AVFramedQueue) unit :=
  match n with
  | O => ret tt
  | S n' =>
      let* p := on_object (slot (Z.of_nat i)) in
      on_heap (delete_frame p) >>
      delete_frames n' (S i)
  end.

(** [AVFramedQueue::~AVFramedQueue]. *)
Definition AVFramedQueue_delete : M (Heap * AVFramedQueue) unit :=
  let* m := on_object (gets max) in
  delete_frames (Z.to_nat m) 0.

(** ** The queue of the unit tests *)

(** [FrameMock::createNew(seqNum)]. *)
Definition FrameMock_createNew (seqNum : Z) : Frame := mkFrame FrameMock seqNum.

(** [AVFramedQueueMock::config]: slot [i] holds a mock frame numbered
    [i + 1]. *)
Definition AVFramedQueueMock_config : M (Heap * AVFramedQueue) bool :=
  fill_all (fun i => FrameMock_createNew (uadd (Z.of_nat i) 1)) >>
  ret true.

(** [AVFramedQueueMock::AVFramedQueueMock(cData, max)]. *)
Definition AVFramedQueueMock_new (slots : list FramePtr) (cData : ConnectionData)
    (max : Z) : M Heap AVFramedQueue :=
  fun h =>
    match AVFramedQueueMock_config (h, AVFramedQueue_new slots cData max) with
    | Ret _ (h', q) => Ret q h'
    | Undefined => Undefined
    | OutOfFuel => OutOfFuel
    end.

(** ** VideoFrameQueue *)

Module VideoFrameQueue.

Record t : Type := mk {
  base : AVFramedQueue;
  codec : VCodecType;
  pixelFormat : PixType;
  extradata : option (list Z);
  extradata_size : option Z
}.

Definition set_base (b : AVFramedQueue) (q : t) : t :=
  mk b (codec q) (pixelFormat q) (extradata q) (extradata_size q).

Definition set_extradata (e : list Z) (n : Z) (q : t) : t :=
  mk (base q) (codec q) (pixelFormat q) (Some e) (Some n).

(** A method of the base class run on the derived object. *)
Definition on_base {A} (m : M (Heap * AVFramedQueue) A) : M (Heap * t) A :=
  fun hq =>
    match m (fst hq, base (snd hq)) with
    | Ret a (h', b') => Ret a (h', set_base b' (snd hq))
    | Undefined => Undefined
    | OutOfFuel => OutOfFuel
    end.

Section Setup.

(** The two frame sizes are macros of a header that is not among the
    sources. *)
Variables MAX_H264_OR_5_NAL_SIZE LENGTH_VP8 : Z.

(** [VideoFrameQueue::VideoFrameQueue(cData, codec_, maxFrames,
    pixelFormat_)]. *)
Definition new (slots : list FramePtr) (cData : ConnectionData) (codec_ : VCodecType)
    (maxFrames : Z) (pixelFormat_ : PixType) : t :=
  mk (AVFramedQueue_new slots cData maxFrames) codec_ pixelFormat_ None None.

(** [VideoFrameQueue::setup].  [utils::errorMsg] only prints. *)
Definition setup : M (Heap * t) bool :=
  let* c := gets (fun hq => codec (snd hq)) in
  match c with
  | H264 | H265 =>
      on_base (fill_all (fun _ =>
        mkFrame (InterleavedVideoBuffer c MAX_H264_OR_5_NAL_SIZE) 0)) >>
      ret true
  | VP8 =>
      on_base (fill_all (fun _ => mkFrame (InterleavedVideoBuffer c LENGTH_VP8) 0)) >>
      ret true
  | RAW =>
      let* pf := gets (fun hq => pixelFormat (snd hq)) in
      if decide (pf = P_NONE) then ret false
      else
        on_base (fill_all (fun _ =>
          mkFrame (InterleavedVideoPicture c DEFAULT_WIDTH DEFAULT_HEIGHT pf) 0)) >>
        ret true
  | VC_other _ => ret false
  end.

(** [VideoFrameQueue::createNew]: [None] is the null pointer.  When [setup]
    fails, [delete q] runs the destructor of the base class on the queue as
    [setup] left it, and null is returned. *)
Definition createNew (slots : list FramePtr) (cData : ConnectionData)
    (codec_ : VCodecType) (maxFrames : Z) (pixelFormat_ : PixType)
    (extradata_ : list Z) (extradata_size_ : Z) : M Heap (option t) :=
  fun h =>
    let q := new slots cData codec_ maxFrames pixelFormat_ in
    match setup (h, q) with
    | Ret false hq =>
        match on_base AVFramedQueue_delete hq with
        | Ret _ (h', _) => Ret None h'
        | Undefined => Undefined
        | OutOfFuel => OutOfFuel
        end
    | Ret true (h', q') => Ret (Some (set_extradata extradata_ extradata_size_ q')) h'
    | Undefined => Undefined
    | OutOfFuel => OutOfFuel
    end.

End Setup.

End VideoFrameQueue.

(** ** AudioFrameQueue *)

Module AudioFrameQueue.

Record t : Type := mk {
  base : AVFramedQueue;
  codec : ACodecType;
  sampleFormat : SampleFmt;
  sampleRate : Z;
  channels : Z;
  extradata : option (list Z);
  extradata_size : option Z
}.

Definition set_base (b : AVFramedQueue) (q : t) : t :=
  mk b (codec q) (sampleFormat q) (sampleRate q) (channels q)
     (extradata q) (extradata_size q).

Definition set_sampleFormat (f : SampleFmt) (q : t) : t :=
  mk (base q) (codec q) f (sampleRate q) (channels q) (extradata q) (extradata_size q).

Definition set_sampleRate (r : Z) (q : t) : t :=
  mk (base q) (codec q) (sampleFormat q) r (channels q) (extradata q) (extradata_size q).

Definition set_channels (c : Z) (q : t) : t :=
  mk (base q) (codec q) (sampleFormat q) (sampleRate q) c (extradata q) (extradata_size q).

Definition set_extradata (e : list Z) (n : Z) (q : t) : t :=
  mk (base q) (codec q) (sampleFormat q) (sampleRate q) (channels q) (Some e) (Some n).

Definition on_base {A} (m : M (Heap * AVFramedQueue) A) : M (Heap * t) A :=
  fun hq =>
    match m (fst hq, base (snd hq)) with
    | Ret a (h', b') => Ret a (h', set_base b' (snd hq))
    | Undefined => Undefined
    | OutOfFuel => OutOfFuel
    end.

Definition this {A} (f : t -> A) : M (Heap * t) A := gets (fun hq => f (snd hq)).

Definition update (f : t -> t) : M (Heap * t) unit :=
  modify (fun hq => (fst hq, f (snd hq))).

Section Setup.

(** [AudioFrame::getMaxSamples] is defined in a file that is not among the
    sources. *)
Variable getMaxSamples : Z -> Z.

(** [AudioFrameQueue::AudioFrameQueue(cData, codec_, maxFrames, sFmt,
    sampleRate_, channels_)]. *)
Definition new (slots : list FramePtr) (cData : ConnectionData) (codec_ : ACodecType)
    (maxFrames : Z) (sFmt : SampleFmt) (sampleRate_ channels_ : Z) : t :=
  mk (AVFramedQueue_new slots cData maxFrames) codec_ sFmt sampleRate_ channels_
     None None.

(** The loop that both branches for interleaved frames run. *)
Definition fill_interleaved : M (Heap * t) unit :=
  let* ch := this channels in let* sr := this sampleRate in
  let* c := this codec in let* sf := this sampleFormat in
  on_base (fill_all (fun _ =>
    mkFrame (InterleavedAudioFrame ch sr (getMaxSamples sr) c sf) 0)).

Definition fill_planar : M (Heap * t) unit :=
  let* ch := this channels in let* sr := this sampleRate in
  let* c := this codec in let* sf := this sampleFormat in
  on_base (fill_all (fun _ =>
    mkFrame (PlanarAudioFrame ch sr (getMaxSamples sr) c sf) 0)).

(** [AudioFrameQueue::setup]. *)
Definition setup : M (Heap * t) bool :=
  let* c := this codec in
  match c with
  | OPUS | AAC | MP3 =>
      update (set_sampleFormat S16) >>
      fill_interleaved >>
      ret true
  | PCMU | PCM =>
      let* sf := this sampleFormat in
      if decide (sf = U8 \/ sf = S16 \/ sf = FLT) then
        fill_interleaved >> ret true
      else if decide (sf = U8P \/ sf = S16P \/ sf = FLTP) then
        fill_planar >> ret true
      else ret false
  | G711 =>
      update (set_channels 1) >>
      update (set_sampleRate 8000) >>
      update (set_sampleFormat U8) >>
      fill_interleaved >>
      ret true
  | AC_other _ => ret false
  end.

(** [AudioFrameQueue::createNew]: [None] is the null pointer.  When [setup]
    fails, [delete q] runs the destructor of the base class on the queue as
    [setup] left it, and null is returned. *)
Definition createNew (slots : list FramePtr) (cData : ConnectionData)
    (codec_ : ACodecType) (maxFrames sampleRate_ channels_ : Z) (sFmt : SampleFmt)
    (extradata_ : list Z) (extradata_size_ : Z) : M Heap (option t) :=
  fun h =>
    let q := new slots cData codec_ maxFrames sFmt sampleRate_ channels_ in
    match setup (h, q) with
    | Ret false hq =>
        match on_base AVFramedQueue_delete hq with
        | Ret _ (h', _) => Ret None h'
        | Undefined => Undefined
        | OutOfFuel => OutOfFuel
        end
    | Ret true (h', q') => Ret (Some (set_extradata extradata_ extradata_size_ q')) h'
    | Undefined => Undefined
    | OutOfFuel => OutOfFuel
    end.

End Setup.

End AudioFrameQueue.

(** ** Queue states *)

(** The queue is full: the test of [getRear]. *)
Definition full (q : AVFramedQueue) : Prop := (rear q + 1) `mod` max q = front q.

(** The queue is empty: the test of [getFront]. *)
Definition empty (q : AVFramedQueue) : Prop := rear q = front q.

(** The cursors are [unsigned] indices of slots in use. *)
Record in_range (q : AVFramedQueue) : Prop := {
  range_max : 0 < max q < UINT_MODULUS;
  range_front : 0 <= front q < max q;
  range_rear : 0 <= rear q < max q
}.

(** Every slot in use holds a frame ("pre-allocated at construction"). *)
Definition allocated (q : AVFramedQueue) : Prop :=
  forall i, 0 <= i < max q -> exists a, frames q !! Z.to_nat i = Some (FrameAt a).

(** The invariants of the data model: at least two slots, cursors in range,
    frames allocated; and so few slots that [rear + (max - 1)] and
    [front + (max - 1)] do not wrap around as [unsigned] sums. *)
Record Invariant (q : AVFramedQueue) : Prop := {
  inv_range : in_range q;
  inv_two : 2 <= max q;
  inv_no_wrap : 2 * max q <= UINT_MODULUS;
  inv_allocated : allocated q
}.

(** One move of the producer/consumer protocol: the producer publishes the
    slot that [getRear] gave it, or makes room with [forceGetRear]; the
    consumer releases the slot that [getFront] gave it. *)
Inductive step (q : AVFramedQueue) : AVFramedQueue -> Prop :=
| step_publish p id q' :
    getRear q = Ret p q -> p <> NULL -> addFrame q = Ret id q' -> step q q'
| step_force fuel p q' :
    forceGetRear fuel q = Ret p q' -> step q q'
| step_release p id q' :
    getFront q = Ret p q -> p <> NULL -> removeFrame q = Ret id q' -> step q q'.

Inductive reachable (q0 : AVFramedQueue) : AVFramedQueue -> Prop :=
| reach_start : reachable q0 q0
| reach_step q q' : reachable q0 q -> step q q' -> reachable q0 q'.

(** What a consumer would be handed, oldest first, if it emptied the queue
    now: [getFront] then [removeFrame] until [getFront] gives null. *)
Fixpoint drain (fuel : nat) : M AVFramedQueue (list FramePtr) :=
  match fuel with
  | O => out_of_fuel
  | S fuel' =>
      let* p := getFront in
      if decide (p = NULL) then ret []
      else removeFrame >> let* rest := drain fuel' in ret (p :: rest)
  end.

(** The sequence numbers of the frames in the queue, in FIFO order. *)
Definition contents (h : Heap) (q : AVFramedQueue) : option (list Z) :=
  ptrs ← value (drain (S (Z.to_nat (max q))) q);
  mapM (seq_of h) ptrs.

(** The producer publishes a frame numbered [seqNum] in the slot [p] it
    holds. *)
Definition publish (p : FramePtr) (seqNum : Z) : M (Heap * AVFramedQueue) Z :=
  on_heap (setSequenceNumber p seqNum) >>
  on_object addFrame.

(** One cycle of a producer that does not force its way: it asks for the
    rear slot and, when there is one, numbers the frame and publishes it. *)
Definition produce (seqNum : Z) : M (Heap * AVFramedQueue) bool :=
  let* p := on_object getRear in
  if decide (p = NULL) then ret false
  else publish p seqNum >> ret true.

(** ** The queues of the scenarios *)

(** A connection from writer 10 of filter 1 to reader 20 of filter 2. *)
Definition cData_1_to_2 : ConnectionData :=
  {| wFilterId := 1; writerId := 10; rFilterId := 2; readerId := 20 |}.

(** The four-slot queue of [BaseFilterMockup::allocQueue] with its cursors at
    [f] and [r]: the frames of slots 0 to 3 are at addresses 0 to 3. *)
Definition mock_queue (f r : Z) : AVFramedQueue :=
  {| connectionData := cData_1_to_2; rear := r; front := f;
     frames := [FrameAt 0; FrameAt 1; FrameAt 2; FrameAt 3]; max := 4 |}.

(** The heap in which the frames at addresses 0 to 3 are mock frames with the
    given sequence numbers. *)
Definition mock_heap (s0 s1 s2 s3 : Z) : Heap :=
  {| cells := <[3%nat := FrameMock_createNew s3]>
                (<[2%nat := FrameMock_createNew s2]>
                  (<[1%nat := FrameMock_createNew s1]>
                    (<[0%nat := FrameMock_createNew s0]> ∅)));
     next := 4 |}.

(** ** Further observations *)

(** The frames between the cursors, oldest first: slot [front], the slot
    after it, and so on up to the slot before [rear]. *)
Definition queued (q : AVFramedQueue) : list FramePtr :=
  map (fun i => default NULL
                  (frames q !! Z.to_nat ((front q + Z.of_nat i) `mod` max q)))
      (seq 0 (Z.to_nat ((rear q - front q) `mod` max q))).

(** Every address from [next] on is free. *)
Definition heap_wf (h : Heap) : Prop :=
  forall a, (next h <= a)%nat -> cells h !! a = None.

(** What the allocation loop of a constructor leaves, from the heap [h] it
    started on: an empty queue of [maxFrames] slots on the connection
    [cData], whose slot [i] holds the [i]-th address handed out since [h],
    where the frame [create i] is; every other address holds what it held
    in [h]. *)
Record constructed (h h' : Heap) (cData : ConnectionData) (maxFrames : Z)
    (create : nat -> Frame) (b : AVFramedQueue) : Prop := {
  built_max : max b = maxFrames;
  built_front : front b = 0;
  built_rear : rear b = 0;
  built_connection : connectionData b = cData;
  built_frames : forall i, 0 <= i < maxFrames ->
    frames b !! Z.to_nat i = Some (FrameAt (next h + Z.to_nat i)) /\
    cells h' !! (next h + Z.to_nat i)%nat = Some (create (Z.to_nat i));
  built_old : forall a, (a < next h \/ next h + Z.to_nat maxFrames <= a)%nat ->
    cells h' !! a = cells h !! a;
  built_next : next h' = (next h + Z.to_nat maxFrames)%nat
}.

(** * Lemmas *)

(** ** Arithmetic of the cursors *)

Lemma succ_mod (r m : Z) :
  0 <= r < m -> (r + 1) `mod` m = if decide (r + 1 = m) then 0 else r + 1.
Proof.
  intros H. case_decide as E.
  - rewrite E. apply Z.mod_same. lia.
  - apply Z.mod_small. lia.
Qed.

Lemma pred_mod (r m : Z) :
  0 <= r < m -> (r + (m - 1)) `mod` m = if decide (r = 0) then m - 1 else r - 1.
Proof.
  intros H. case_decide as E.
  - subst r. apply Z.mod_small. lia.
  - replace (r + (m - 1)) with ((r - 1) + 1 * m) by lia.
    rewrite Z.mod_add by lia. apply Z.mod_small. lia.
Qed.

Lemma diff_mod (f r m : Z) :
  0 <= f < m -> 0 <= r < m ->
  (r - f) `mod` m = if decide (r < f) then m - f + r else r - f.
Proof.
  intros Hf Hr. case_decide as E.
  - replace (r - f) with ((m - f + r) + (-1) * m) by lia.
    rewrite Z.mod_add by lia. apply Z.mod_small. lia.
  - apply Z.mod_small. lia.
Qed.

(** ** The methods, one equation each *)

Section Equations.

Variable q : AVFramedQueue.
Hypothesis Hq : in_range q.

Lemma getElements_eq : getElements q = Ret ((rear q - front q) `mod` max q) q.
Proof.
  destruct Hq as [Hm Hf Hr]. unfold UINT_MODULUS in Hm.
  unfold getElements, bind, gets, ret, uadd, usub, wrap, UINT_MODULUS.
  rewrite (diff_mod (front q) (rear q) (max q)) by lia.
  case_decide.
  - rewrite (Z.mod_small (max q - front q)) by lia.
    rewrite Z.mod_small by lia. reflexivity.
  - rewrite Z.mod_small by lia. reflexivity.
Qed.

Lemma addFrame_eq :
  addFrame q = Ret (rFilterId (connectionData q))
                   (set_rear ((rear q + 1) `mod` max q) q).
Proof.
  destruct Hq as [Hm Hf Hr]. unfold UINT_MODULUS in Hm.
  unfold addFrame, bind, gets, modify, ret, urem, uadd, wrap, UINT_MODULUS.
  rewrite decide_False by lia.
  rewrite (Z.mod_small (rear q + 1)) by lia. reflexivity.
Qed.

Lemma removeFrame_eq :
  removeFrame q = Ret (wFilterId (connectionData q))
                      (set_front ((front q + 1) `mod` max q) q).
Proof.
  destruct Hq as [Hm Hf Hr]. unfold UINT_MODULUS in Hm.
  unfold removeFrame, bind, gets, modify, ret, urem, uadd, wrap, UINT_MODULUS.
  rewrite decide_False by lia.
  rewrite (Z.mod_small (front q + 1)) by lia. reflexivity.
Qed.

Lemma getRear_eq :
  getRear q = if decide (full q) then Ret NULL q else slot (rear q) q.
Proof.
  destruct Hq as [Hm Hf Hr]. unfold UINT_MODULUS in Hm.
  unfold getRear, full, bind, gets, ret, urem, uadd, wrap, UINT_MODULUS.
  rewrite decide_False by lia.
  rewrite (Z.mod_small (rear q + 1)) by lia.
  unfold ret. repeat case_decide; tauto.
Qed.

Lemma getFront_eq :
  getFront q = if decide (empty q) then Ret NULL q else slot (front q) q.
Proof.
  unfold getFront, empty, bind, gets, ret. repeat case_decide; tauto.
Qed.

Lemma flush_eq :
  2 * max q <= UINT_MODULUS ->
  flush q = Ret tt (set_rear ((rear q + (max q - 1)) `mod` max q) q).
Proof.
  destruct Hq as [Hm Hf Hr]. unfold UINT_MODULUS in *. intros Hw.
  unfold flush, bind, gets, modify, ret, urem, uadd, usub, wrap, UINT_MODULUS.
  rewrite decide_False by lia.
  rewrite (Z.mod_small (max q - 1)) by lia.
  rewrite (Z.mod_small (rear q + (max q - 1))) by lia. reflexivity.
Qed.

Lemma forceGetFront_eq :
  2 * max q <= UINT_MODULUS ->
  forceGetFront q = slot ((front q + (max q - 1)) `mod` max q) q.
Proof.
  destruct Hq as [Hm Hf Hr]. unfold UINT_MODULUS in *. intros Hw.
  unfold forceGetFront, bind, gets, ret, urem, uadd, usub, wrap, UINT_MODULUS.
  rewrite decide_False by lia.
  rewrite (Z.mod_small (max q - 1)) by lia.
  rewrite (Z.mod_small (front q + (max q - 1))) by lia. reflexivity.
Qed.

Lemma slot_allocated (i : Z) :
  allocated q -> 0 <= i < max q -> exists a, slot i q = Ret (FrameAt a) q.
Proof.
  intros Ha Hi. destruct (Ha i Hi) as [a E]. exists a.
  unfold slot. rewrite E. reflexivity.
Qed.

End Equations.

(** ** Invariants kept by the methods *)

Lemma in_range_set_rear (q : AVFramedQueue) (r : Z) :
  in_range q -> 0 <= r < max q -> in_range (set_rear r q).
Proof. intros [Hm Hf Hr] H. split; simpl; assumption. Qed.

Lemma in_range_set_front (q : AVFramedQueue) (f : Z) :
  in_range q -> 0 <= f < max q -> in_range (set_front f q).
Proof. intros [Hm Hf Hr] H. split; simpl; assumption. Qed.

Lemma mod_in_range (q : AVFramedQueue) (z : Z) :
  in_range q -> 0 <= z `mod` max q < max q.
Proof. intros [Hm _ _]. apply Z.mod_pos_bound. lia. Qed.

Lemma flush_in_range (q : AVFramedQueue) :
  in_range q ->
  exists r, flush q = Ret tt (set_rear r q) /\ 0 <= r < max q.
Proof.
  intros Hq. pose proof (range_max q Hq) as Hm.
  unfold flush, bind, gets, modify, urem.
  rewrite decide_False by lia. unfold ret.
  eexists. split; [reflexivity|]. apply Z.mod_pos_bound. lia.
Qed.

Lemma getRear_state (q : AVFramedQueue) (p : FramePtr) (q' : AVFramedQueue) :
  getRear q = Ret p q' -> q' = q.
Proof.
  unfold getRear, bind, gets, urem, ret, undefined, slot.
  repeat case_decide; try discriminate.
  - intros [= _ <-]. reflexivity.
  - destruct (frames q !! Z.to_nat (rear q)); [|discriminate].
    intros [= _ <-]. reflexivity.
Qed.

Lemma forceGetRear_in_range (fuel : nat) :
  forall q p q', in_range q -> forceGetRear fuel q = Ret p q' -> in_range q'.
Proof.
  induction fuel as [|fuel IH]; intros q p q' Hq; [discriminate|].
  simpl. unfold bind at 1.
  destruct (getRear q) as [frame q1| |] eqn:E; try discriminate.
  apply getRear_state in E. subst q1.
  case_decide.
  - unfold bind. destruct (flush_in_range q Hq) as (r & -> & Hr).
    apply IH. apply in_range_set_rear; assumption.
  - intros [= _ <-]. assumption.
Qed.

Lemma step_in_range (q q' : AVFramedQueue) :
  in_range q -> step q q' -> in_range q'.
Proof.
  intros Hq [p id q1 _ _ E | fuel p q1 E | p id q1 _ _ E].
  - rewrite (addFrame_eq q Hq) in E. injection E as _ <-.
    apply in_range_set_rear; [assumption | apply mod_in_range; assumption].
  - eapply forceGetRear_in_range; eassumption.
  - rewrite (removeFrame_eq q Hq) in E. injection E as _ <-.
    apply in_range_set_front; [assumption | apply mod_in_range; assumption].
Qed.

Lemma reachable_in_range (q0 q : AVFramedQueue) :
  in_range q0 -> reachable q0 q -> in_range q.
Proof.
  intros H0 Hreach. induction Hreach as [|q q' _ IH Hstep]; [assumption|].
  eapply step_in_range; eassumption.
Qed.

(** ** The loop of forceGetRear *)

(** After [flush] on a full queue of at least two slots the queue is not
    full, and holds one frame less. *)
Lemma flush_full (q : AVFramedQueue) :
  in_range q -> 2 <= max q -> full q ->
  let q' := set_rear ((rear q + (max q - 1)) `mod` max q) q in
  ~ full q' /\
  (rear q' - front q') `mod` max q' = (rear q - front q) `mod` max q - 1.
Proof.
  intros Hq H2 Hfull. destruct Hq as [Hm Hf Hr].
  unfold full in *. simpl.
  rewrite (diff_mod (front q) (rear q) (max q)) by lia.
  rewrite succ_mod in Hfull by lia.
  rewrite pred_mod by lia.
  split.
  - rewrite succ_mod by (repeat case_decide; lia).
    repeat case_decide; lia.
  - rewrite diff_mod by (repeat case_decide; lia).
    repeat case_decide; lia.
Qed.

Lemma forceGetRear_not_full (q : AVFramedQueue) (fuel : nat) :
  in_range q -> allocated q -> ~ full q ->
  exists a, forceGetRear (S fuel) q = Ret (FrameAt a) q.
Proof.
  intros Hq Ha Hnf.
  destruct (slot_allocated q (rear q) Ha) as [a E]; [apply Hq|].
  exists a. simpl. unfold bind. rewrite (getRear_eq q Hq).
  rewrite decide_False by assumption. rewrite E.
  rewrite decide_False by discriminate. reflexivity.
Qed.

Lemma forceGetRear_full (q : AVFramedQueue) (fuel : nat) :
  Invariant q -> full q ->
  exists a, forceGetRear (S (S fuel)) q =
            Ret (FrameAt a) (set_rear ((rear q + (max q - 1)) `mod` max q) q).
Proof.
  intros [Hq H2 Hw Ha] Hfull.
  destruct (flush_full q Hq H2 Hfull) as [Hnf _].
  set (q' := set_rear ((rear q + (max q - 1)) `mod` max q) q) in *.
  assert (Hq' : in_range q').
  { apply in_range_set_rear; [assumption | apply mod_in_range; assumption]. }
  destruct (forceGetRear_not_full q' fuel Hq' Ha Hnf) as [a E].
  exists a. change (forceGetRear (S (S fuel)) q) with
    (bind getRear (fun frame => if decide (frame = NULL)
       then flush >> forceGetRear (S fuel) else ret frame) q).
  unfold bind at 1. rewrite (getRear_eq q Hq).
  rewrite decide_True by assumption.
  rewrite decide_True by reflexivity.
  unfold bind. rewrite (flush_eq q Hq Hw). exact E.
Qed.

(** With a single slot the queue is always full and [flush] changes nothing:
    [forceGetRear] never leaves its loop.  This is why the data model asks for
    two slots. *)
Lemma forceGetRear_single_slot (q : AVFramedQueue) (fuel : nat) :
  in_range q -> max q = 1 -> forceGetRear fuel q = OutOfFuel.
Proof.
  intros Hq H1. revert q Hq H1.
  induction fuel as [|fuel IH]; intros q Hq H1; [reflexivity|].
  simpl. unfold bind at 1. rewrite (getRear_eq q Hq).
  assert (Hfull : full q).
  { unfold full. rewrite H1, Z.mod_1_r. destruct Hq as [_ Hf _]. lia. }
  rewrite decide_True by assumption. rewrite decide_True by reflexivity.
  unfold bind. destruct (flush_in_range q Hq) as (r & -> & Hr).
  apply IH; [apply in_range_set_rear; assumption | assumption].
Qed.

(** ** The queue of the unit tests *)

(** The constructor of the mock-up builds the queue of the scenarios. *)
Lemma mock_queue_constructed :
  AVFramedQueueMock_new (replicate 4 NULL) cData_1_to_2 4 empty_heap =
  Ret (mock_queue 0 0) (mock_heap 1 2 3 4).
Proof. reflexivity. Qed.

Lemma mock_queue_allocated (f r : Z) : allocated (mock_queue f r).
Proof.
  intros i Hi. simpl in Hi.
  assert (i = 0 \/ i = 1 \/ i = 2 \/ i = 3) as [-> | [-> | [-> | ->]]] by lia;
    eexists; reflexivity.
Qed.

Lemma mock_queue_in_range (f r : Z) :
  0 <= f < 4 -> 0 <= r < 4 -> in_range (mock_queue f r).
Proof. intros Hf Hr. split; simpl; unfold UINT_MODULUS; lia. Qed.

Lemma mock_queue_invariant (f r : Z) :
  0 <= f < 4 -> 0 <= r < 4 -> Invariant (mock_queue f r).
Proof.
  intros Hf Hr. split.
  - apply mock_queue_in_range; assumption.
  - simpl. lia.
  - simpl. unfold UINT_MODULUS. lia.
  - apply mock_queue_allocated.
Qed.

(** The full queue of scenarios S1 and S2 is what three productions on the
    fresh mock-up queue lead to; a fourth one finds no slot. *)
Lemma scenario_full_queue :
  (produce 1 >> produce 2 >> produce 3) (mock_heap 1 2 3 4, mock_queue 0 0) =
    Ret true (mock_heap 1 2 3 4, mock_queue 0 3) /\
  produce 4 (mock_heap 1 2 3 4, mock_queue 0 3) =
    Ret false (mock_heap 1 2 3 4, mock_queue 0 3).
Proof. split; reflexivity. Qed.

(** ** Sequence numbers through the heap *)

Lemma publish_eq (q : AVFramedQueue) (h : Heap) (a : nat) (f : Frame) (seqNum : Z) :
  in_range q -> cells h !! a = Some f ->
  publish (FrameAt a) seqNum (h, q) =
    Ret (rFilterId (connectionData q))
        (mkHeap (<[a := mkFrame (shape f) seqNum]> (cells h)) (next h),
         set_rear ((rear q + 1) `mod` max q) q).
Proof.
  intros Hq Hf. unfold publish, bind, on_heap, on_object, setSequenceNumber.
  simpl. rewrite Hf. simpl. rewrite (addFrame_eq q Hq). reflexivity.
Qed.

Lemma seq_of_written (h : Heap) (a : nat) (f : Frame) :
  seq_of (mkHeap (<[a := f]> (cells h)) (next h)) (FrameAt a) = Some (sequenceNumber f).
Proof. unfold seq_of. simpl. rewrite lookup_insert_eq. reflexivity. Qed.

Lemma seq_of_other (h : Heap) (a b : nat) (f : Frame) :
  a <> b ->
  seq_of (mkHeap (<[a := f]> (cells h)) (next h)) (FrameAt b) = seq_of h (FrameAt b).
Proof. intros Hab. unfold seq_of. simpl. rewrite lookup_insert_ne by assumption. reflexivity. Qed.

Lemma seq_of_Some (h : Heap) (a : nat) (n : Z) :
  seq_of h (FrameAt a) = Some n -> exists f, cells h !! a = Some f.
Proof.
  unfold seq_of. simpl. destruct (cells h !! a) as [f|]; [|discriminate].
  intros _. exists f. reflexivity.
Qed.

(** The frames that a drain hands out, computed on a queue whose cursors and
    slots in use are known. *)
Ltac run_drain :=
  repeat match goal with
  | H : context [value (drain ?n ?q)] |- _ =>
      let t := eval vm_compute in (value (drain n q)) in
      change (value (drain n q)) with t in H
  | |- context [value (drain ?n ?q)] =>
      let t := eval vm_compute in (value (drain n q)) in
      change (value (drain n q)) with t
  end.

Lemma mapM_seq_of_3 (h : Heap) (ps : list FramePtr) (x y z : Z) :
  mapM (seq_of h) ps = Some [x; y; z] ->
  exists p0 p1 p2, ps = [p0; p1; p2] /\
    seq_of h p0 = Some x /\ seq_of h p1 = Some y /\ seq_of h p2 = Some z.
Proof.
  intros H. apply mapM_Some in H.
  inversion H as [|p0 ? ps0 ? H0 H']; subst.
  inversion H' as [|p1 ? ps1 ? H1 H'']; subst.
  inversion H'' as [|p2 ? ps2 ? H2 H''']; subst.
  inversion H'''; subst.
  exists p0, p1, p2. auto.
Qed.

Lemma drop_newest_four_slots (cd : ConnectionData) (a0 a1 a2 a3 : nat)
    (rest : list FramePtr) (f r : Z) (h : Heap) (fuel : nat) :
  let q := mkAVFramedQueue cd r f
             (FrameAt a0 :: FrameAt a1 :: FrameAt a2 :: FrameAt a3 :: rest) 4 in
  NoDup [FrameAt a0; FrameAt a1; FrameAt a2; FrameAt a3] ->
  in_range q ->
  contents h q = Some [1; 2; 3] ->
  exists p q',
    forceGetRear (S (S fuel)) q = Ret p q' /\
    getElements q' = Ret 2 q' /\
    contents h q' = Some [1; 2] /\
    exists id h' q'',
      publish p 4 (h, q') = Ret id (h', q'') /\
      contents h' q'' = Some [1; 2; 4].
Proof.
  intros q Hnd Hq Hc. subst q.
  rewrite !NoDup_cons, !not_elem_of_cons in Hnd.
  destruct Hq as [_ Hf Hr]. simpl in Hf, Hr.
  unfold contents in Hc. simpl max in Hc.
  assert (Hf' : f = 0 \/ f = 1 \/ f = 2 \/ f = 3) by lia.
  assert (Hr' : r = 0 \/ r = 1 \/ r = 2 \/ r = 3) by lia.
  destruct Hf' as [-> | [-> | [-> | ->]]];
    destruct Hr' as [-> | [-> | [-> | ->]]];
    run_drain; cbv beta iota delta [mbind option_bind] in Hc;
    apply mapM_seq_of_3 in Hc;
    destruct Hc as (p0 & p1 & p2 & Hps & H1 & H2 & H3);
    try discriminate Hps.
  all: injection Hps as <- <- <-.
  all: destruct (seq_of_Some _ _ _ H3) as [fr Hfr].
  all: match goal with
       | |- context [forceGetRear ?n ?q] =>
           let t := eval vm_compute in (forceGetRear n q) in
           match t with Ret ?p ?q' => exists p, q' end
       end.
  all: split; [vm_compute; reflexivity|].
  all: split; [vm_compute; reflexivity|].
  all: split;
    [unfold contents; run_drain; cbv beta iota delta [mbind option_bind];
     apply mapM_Some; repeat (constructor; [assumption|]); constructor|].
  all: match goal with
       | |- context [publish _ _ (_, ?q')] =>
           assert (Hq' : in_range q') by (split; simpl; unfold UINT_MODULUS; lia)
       end.
  all: eexists _, _, _; split; [apply (publish_eq _ _ _ _ _ Hq' Hfr)|].
  all: unfold contents; run_drain; cbv beta iota delta [mbind option_bind].
  all: apply mapM_Some.
  all: repeat (constructor;
         [first [ apply seq_of_written
                | rewrite seq_of_other by (intuition congruence); assumption ] |]).
  all: constructor.
Qed.

(** ** The allocation loop of the typed queues *)

(** The allocation loop ends well when the slots it writes are within the
    array. *)
Lemma fill_frames_ok (create : nat -> Frame) (n : nat) :
  forall (i : nat) (h : Heap) (q : AVFramedQueue),
    (i + n <= length (frames q))%nat ->
    exists h' fs,
      fill_frames create n i (h, q) = Ret tt (h', set_frames fs q) /\
      length fs = length (frames q).
Proof.
  induction n as [|n IH]; intros i h q Hlen.
  - exists h, (frames q). destruct q. split; reflexivity.
  - simpl. unfold bind at 1. unfold on_heap at 1. simpl.
    unfold bind at 1. unfold on_object at 1, store_slot. simpl.
    rewrite decide_True by lia.
    set (q1 := set_frames _ q).
    destruct (IH (S i) (mkHeap (<[next h := create i]> (cells h)) (S (next h))) q1)
      as (h' & fs & E & Hfs).
    { subst q1. simpl. rewrite length_insert. lia. }
    exists h', fs. rewrite E. split; [reflexivity|].
    rewrite Hfs. subst q1. simpl. apply length_insert.
Qed.

Lemma fill_all_ok (create : nat -> Frame) (h : Heap) (q : AVFramedQueue) :
  max q <= Z.of_nat (length (frames q)) ->
  exists h' fs, fill_all create (h, q) = Ret tt (h', set_frames fs q).
Proof.
  intros Hmax. unfold fill_all, bind, on_object, gets. simpl.
  destruct (fill_frames_ok create (Z.to_nat (max q)) 0 h q) as (h' & fs & E & _);
    [lia|].
  exists h', fs. exact E.
Qed.

(** ** The loop of the destructor *)

Lemma delete_frames_step (n i : nat) (h : Heap) (q : AVFramedQueue) :
  delete_frames (S n) i (h, q) =
  match frames q !! i with
  | None => Undefined
  | Some p =>
      match delete_frame p h with
      | Ret _ h1 => delete_frames n (S i) (h1, q)
      | Undefined => Undefined
      | OutOfFuel => OutOfFuel
      end
  end.
Proof.
  simpl. unfold bind at 1. unfold on_object at 1, slot. simpl.
  rewrite Nat2Z.id. destruct (frames q !! i) as [p|]; [|reflexivity].
  unfold bind at 1. unfold on_heap at 1. simpl.
  destruct (delete_frame p h); reflexivity.
Qed.

Lemma delete_frame_keeps_free (p : FramePtr) (h h1 : Heap) (u : unit) (a : nat) :
  delete_frame p h = Ret u h1 -> cells h !! a = None -> cells h1 !! a = None.
Proof.
  unfold delete_frame. destruct p as [|b]; [intros [= _ <-]; auto|].
  destruct (cells h !! b); [|discriminate].
  intros [= _ <-] Ha. simpl.
  destruct (decide (b = a)) as [-> | Hne];
    [apply lookup_delete_eq | rewrite lookup_delete_ne by assumption; exact Ha].
Qed.

(** Deleting a frame that is no longer live, sooner or later in the loop. *)
Lemma delete_frames_dead (n : nat) :
  forall (i k : nat) (h : Heap) (q : AVFramedQueue) (a : nat),
    (i <= k < i + n)%nat -> frames q !! k = Some (FrameAt a) ->
    cells h !! a = None ->
    delete_frames n i (h, q) = Undefined.
Proof.
  induction n as [|n IH]; intros i k h q a Hk Ek Hdead; [lia|].
  rewrite delete_frames_step.
  destruct (decide (k = i)) as [-> | Hne].
  - rewrite Ek. simpl. rewrite Hdead. reflexivity.
  - destruct (frames q !! i) as [p|]; [|reflexivity].
    destruct (delete_frame p h) as [u h1| |] eqn:Ed; [|reflexivity|].
    + apply (IH (S i) k h1 q a); [lia | exact Ek|].
      eapply delete_frame_keeps_free; eassumption.
    + destruct p; simpl in Ed; [discriminate|].
      destruct (cells h !! a0); discriminate.
Qed.

(** Over null slots the loop deletes nothing. *)
Lemma delete_frames_null (n : nat) :
  forall (i : nat) (h : Heap) (q : AVFramedQueue),
    (forall k, (k < n)%nat -> frames q !! (i + k)%nat = Some NULL) ->
    delete_frames n i (h, q) = Ret tt (h, q).
Proof.
  induction n as [|n IH]; intros i h q Hnull; [reflexivity|].
  rewrite delete_frames_step.
  pose proof (Hnull 0%nat) as E0. rewrite Nat.add_0_r in E0.
  rewrite E0 by lia. simpl. apply IH.
  intros k Hk. replace (S i + k)%nat with (i + S k)%nat by lia.
  apply Hnull. lia.
Qed.

Lemma delete_frames_keeps_free (n : nat) :
  forall (i : nat) (h h' : Heap) (q q' : AVFramedQueue) (u : unit) (a : nat),
    delete_frames n i (h, q) = Ret u (h', q') ->
    cells h !! a = None -> cells h' !! a = None.
Proof.
  induction n as [|n IH]; intros i h h' q q' u a.
  - intros [= _ <- _]. auto.
  - rewrite delete_frames_step.
    destruct (frames q !! i) as [p|]; [|discriminate].
    destruct (delete_frame p h) as [u1 h1| |] eqn:Ed; try discriminate.
    intros Hrest Hfree. apply (IH _ _ _ _ _ _ _ Hrest).
    eapply delete_frame_keeps_free; eassumption.
Qed.

(** When the loop ends well, no frame of a slot it went over is left on the
    heap. *)
Lemma delete_frames_deleted (n : nat) :
  forall (i k : nat) (h h' : Heap) (q q' : AVFramedQueue) (u : unit) (a : nat),
    delete_frames n i (h, q) = Ret u (h', q') ->
    (i <= k < i + n)%nat -> frames q !! k = Some (FrameAt a) ->
    cells h' !! a = None.
Proof.
  induction n as [|n IH]; intros i k h h' q q' u a; [lia|].
  rewrite delete_frames_step.
  destruct (frames q !! i) as [p|] eqn:Ei; [|discriminate].
  destruct (delete_frame p h) as [u1 h1| |] eqn:Ed; try discriminate.
  intros Hrest Hk Ek.
  destruct (decide (k = i)) as [-> | Hne].
  - apply (delete_frames_keeps_free _ _ _ _ _ _ _ _ Hrest).
    rewrite Ek in Ei. injection Ei as <-. simpl in Ed.
    destruct (cells h !! a); [|discriminate].
    injection Ed as Ed. subst h1. simpl. apply lookup_delete_eq.
  - apply (IH (S i) k h1 h' q q' u a Hrest); [lia | exact Ek].
Qed.

(** The destructor on a queue that no [setup] has filled: the slots are as
    the storage held them. *)
Lemma delete_unfilled_null (slots : list FramePtr) (cData : ConnectionData)
    (maxFrames : Z) (h : Heap) :
  (forall i, 0 <= i < maxFrames -> slots !! Z.to_nat i = Some NULL) ->
  AVFramedQueue_delete (h, AVFramedQueue_new slots cData maxFrames) =
    Ret tt (h, AVFramedQueue_new slots cData maxFrames).
Proof.
  intros Hnull. unfold AVFramedQueue_delete, bind, on_object, gets. simpl.
  apply delete_frames_null. simpl. intros k Hk.
  rewrite <- (Nat2Z.id k). apply Hnull. lia.
Qed.

Lemma delete_unfilled_dead (slots : list FramePtr) (cData : ConnectionData)
    (maxFrames : Z) (h : Heap) (i : Z) (a : nat) :
  0 <= i < maxFrames -> slots !! Z.to_nat i = Some (FrameAt a) ->
  cells h !! a = None ->
  AVFramedQueue_delete (h, AVFramedQueue_new slots cData maxFrames) = Undefined.
Proof.
  intros Hi Ei Hdead. unfold AVFramedQueue_delete, bind, on_object, gets. simpl.
  apply (delete_frames_dead _ 0 (Z.to_nat i) h _ a); [lia | exact Ei | exact Hdead].
Qed.

Lemma delete_unfilled_deleted (slots : list FramePtr) (cData : ConnectionData)
    (maxFrames : Z) (h h' : Heap) (q' : AVFramedQueue) (u : unit) (i : Z) (a : nat) :
  AVFramedQueue_delete (h, AVFramedQueue_new slots cData maxFrames) = Ret u (h', q') ->
  0 <= i < maxFrames -> slots !! Z.to_nat i = Some (FrameAt a) ->
  cells h' !! a = None.
Proof.
  unfold AVFramedQueue_delete, bind, on_object, gets. simpl.
  intros Hdel Hi Ei.
  apply (delete_frames_deleted _ 0 (Z.to_nat i) h h' _ q' u a Hdel); [lia | exact Ei].
Qed.

(** * The properties of the specification *)

(** ** Overload: forceGetRear *)

(** C1. In every state that satisfies the invariants of the data model (two
    slots or more), [forceGetRear] returns, and what it returns is not null;
    when the queue is full, it leaves [getElements] smaller by exactly 1.
    Two evaluations of the loop condition are always enough. *)
Theorem forceGetRear_never_null (q : AVFramedQueue) (fuel : nat) :
  Invariant q -> (2 <= fuel)%nat ->
  exists p q',
    forceGetRear fuel q = Ret p q' /\ p <> NULL /\
    (full q ->
     exists n, getElements q = Ret n q /\ getElements q' = Ret (n - 1) q').
Proof.
  intros Hinv Hfuel.
  destruct fuel as [|[|fuel]]; [lia | lia |].
  destruct (decide (full q)) as [Hfull | Hnf].
  - destruct (forceGetRear_full q fuel Hinv Hfull) as [a E].
    destruct Hinv as [Hq H2 Hw Ha].
    eexists _, _. split; [exact E|]. split; [discriminate|].
    intros _. exists ((rear q - front q) `mod` max q).
    split; [apply getElements_eq; assumption|].
    destruct (flush_full q Hq H2 Hfull) as [_ <-].
    apply getElements_eq.
    apply in_range_set_rear; [assumption | apply mod_in_range; assumption].
  - destruct Hinv as [Hq H2 Hw Ha].
    destruct (forceGetRear_not_full q (S fuel) Hq Ha Hnf) as [a E].
    eexists _, _. split; [exact E|]. split; [discriminate|].
    intros Hfull. contradiction.
Qed.

Lemma forceGetRear_never_null_witness :
  exists p q',
    forceGetRear 2 (mock_queue 0 3) = Ret p q' /\ p <> NULL /\
    (full (mock_queue 0 3) ->
     exists n, getElements (mock_queue 0 3) = Ret n (mock_queue 0 3) /\
               getElements q' = Ret (n - 1) q').
Proof.
  apply (forceGetRear_never_null (mock_queue 0 3) 2).
  - apply mock_queue_invariant; lia.
  - lia.
Defined.

(** ** The producer's peek: getRear *)

(** C2. [getRear] gives null exactly when the queue is full, and the frame of
    slot [rear] otherwise; it leaves the queue as it was.  With four slots and
    three frames in the queue it gives null, and after one [removeFrame] it
    gives a frame. *)
Theorem getRear_null_iff_full (q : AVFramedQueue) :
  in_range q -> allocated q ->
  exists p,
    getRear q = Ret p q /\
    (p = NULL <-> full q) /\
    (~ full q -> frames q !! Z.to_nat (rear q) = Some p) /\
    (max q = 4 -> getElements q = Ret 3 q ->
     p = NULL /\
     exists id q' p',
       removeFrame q = Ret id q' /\ getRear q' = Ret p' q' /\ p' <> NULL).
Proof.
  intros Hq Ha.
  assert (Hs1 : max q = 4 -> getElements q = Ret 3 q ->
                full q /\ ~ full (set_front ((front q + 1) `mod` max q) q)).
  { intros H4 He. rewrite (getElements_eq q Hq) in He. injection He as He.
    destruct Hq as [Hm Hf Hr]. unfold full. simpl.
    rewrite diff_mod in He by lia. rewrite !succ_mod by lia.
    repeat case_decide; lia. }
  rewrite (getRear_eq q Hq).
  destruct (decide (full q)) as [Hfull | Hnf].
  - exists NULL. split; [reflexivity|]. split; [tauto|]. split; [tauto|].
    intros H4 He. split; [reflexivity|].
    destruct (Hs1 H4 He) as [_ Hnf'].
    set (q' := set_front ((front q + 1) `mod` max q) q) in *.
    assert (Hq' : in_range q').
    { apply in_range_set_front; [assumption | apply mod_in_range; assumption]. }
    destruct (slot_allocated q' (rear q') Ha) as [a E]; [apply Hq'|].
    exists (wFilterId (connectionData q)), q', (FrameAt a).
    split; [apply removeFrame_eq; assumption|].
    rewrite (getRear_eq q' Hq'). rewrite decide_False by assumption.
    split; [exact E | discriminate].
  - destruct (Ha (rear q)) as [a E]; [apply Hq|].
    exists (FrameAt a). unfold slot. rewrite E.
    split; [reflexivity|]. split; [split; [discriminate | contradiction]|].
    split; [reflexivity|].
    intros H4 He. destruct (Hs1 H4 He) as [Hfull _]. contradiction.
Qed.

Lemma getRear_null_iff_full_witness :
  exists p,
    getRear (mock_queue 0 3) = Ret p (mock_queue 0 3) /\
    (p = NULL <-> full (mock_queue 0 3)) /\
    (~ full (mock_queue 0 3) ->
     frames (mock_queue 0 3) !! Z.to_nat (rear (mock_queue 0 3)) = Some p) /\
    (max (mock_queue 0 3) = 4 ->
     getElements (mock_queue 0 3) = Ret 3 (mock_queue 0 3) ->
     p = NULL /\
     exists id q' p',
       removeFrame (mock_queue 0 3) = Ret id q' /\
       getRear q' = Ret p' q' /\ p' <> NULL).
Proof.
  apply (getRear_null_iff_full (mock_queue 0 3)).
  - apply mock_queue_in_range; lia.
  - apply mock_queue_allocated.
Defined.

(** ** Capacity *)

(** C3. With cursors in range and two slots or more, [getElements] is
    [(rear - front) mod max]; and in every state that the producer and the
    consumer reach from there by the protocol, [getElements] is at most
    [max - 1]. *)
Theorem getElements_capacity (q : AVFramedQueue) :
  in_range q -> 2 <= max q ->
  getElements q = Ret ((rear q - front q) `mod` max q) q /\
  forall q', reachable q q' ->
    exists n, getElements q' = Ret n q' /\ 0 <= n <= max q' - 1.
Proof.
  intros Hq _. split; [apply getElements_eq; assumption|].
  intros q' Hreach.
  pose proof (reachable_in_range q q' Hq Hreach) as Hq'.
  exists ((rear q' - front q') `mod` max q').
  split; [apply getElements_eq; assumption|].
  pose proof (mod_in_range q' (rear q' - front q') Hq'). lia.
Qed.

Lemma getElements_capacity_witness :
  getElements (mock_queue 0 0) =
    Ret ((rear (mock_queue 0 0) - front (mock_queue 0 0)) `mod` max (mock_queue 0 0))
        (mock_queue 0 0) /\
  forall q', reachable (mock_queue 0 0) q' ->
    exists n, getElements q' = Ret n q' /\ 0 <= n <= max q' - 1.
Proof.
  apply (getElements_capacity (mock_queue 0 0)).
  - apply mock_queue_in_range; lia.
  - simpl. lia.
Defined.

(** ** Drop-newest keeps the oldest frames *)

(** C4.  A four-slot queue holds the frames numbered 1, 2, 3.  Then
    [forceGetRear] leaves two frames in it, those numbered 1 and 2 in this
    order, and once the producer has numbered the slot it was given 4 and
    published it, the queue holds 1, 2, 4 in this order. *)
Theorem forceGetRear_keeps_oldest (q : AVFramedQueue) (h : Heap) (fuel : nat) :
  Invariant q -> max q = 4 -> NoDup (take 4 (frames q)) ->
  contents h q = Some [1; 2; 3] ->
  (2 <= fuel)%nat ->
  exists p q',
    forceGetRear fuel q = Ret p q' /\
    getElements q' = Ret 2 q' /\
    contents h q' = Some [1; 2] /\
    exists id h' q'',
      publish p 4 (h, q') = Ret id (h', q'') /\
      contents h' q'' = Some [1; 2; 4].
Proof.
  intros [Hq _ _ Ha] H4 Hnd Hc Hfuel.
  destruct fuel as [|[|fuel]]; [lia | lia |].
  destruct q as [cd r f fs m]. simpl in H4. subst m.
  destruct (Ha 0) as [a0 E0]; [simpl; lia|].
  destruct (Ha 1) as [a1 E1]; [simpl; lia|].
  destruct (Ha 2) as [a2 E2]; [simpl; lia|].
  destruct (Ha 3) as [a3 E3]; [simpl; lia|].
  simpl in E0, E1, E2, E3, Hnd.
  destruct fs as [|p0 [|p1 [|p2 [|p3 rest]]]]; try discriminate.
  simpl in E0, E1, E2, E3, Hnd.
  injection E0 as ->. injection E1 as ->. injection E2 as ->. injection E3 as ->.
  apply drop_newest_four_slots; assumption.
Qed.

Lemma forceGetRear_keeps_oldest_witness :
  exists p q',
    forceGetRear 2 (mock_queue 0 3) = Ret p q' /\
    getElements q' = Ret 2 q' /\
    contents (mock_heap 1 2 3 4) q' = Some [1; 2] /\
    exists id h' q'',
      publish p 4 (mock_heap 1 2 3 4, q') = Ret id (h', q'') /\
      contents h' q'' = Some [1; 2; 4].
Proof.
  apply (forceGetRear_keeps_oldest (mock_queue 0 3) (mock_heap 1 2 3 4) 2).
  - apply mock_queue_invariant; lia.
  - reflexivity.
  - apply (bool_decide_unpack _). vm_compute. exact I.
  - reflexivity.
  - lia.
Defined.

(** ** Publication and release *)

(** C5, as the code has it.  With cursors in range, [addFrame] moves [rear]
    on by one slot modulo [max], leaves [front] and [frames] alone, and
    returns [connectionData.rFilterId]: the id of the filter that reads from
    the queue. *)
Theorem addFrame_advances_rear (q : AVFramedQueue) :
  in_range q ->
  exists q',
    addFrame q = Ret (rFilterId (connectionData q)) q' /\
    rear q' = (rear q + 1) `mod` max q /\
    front q' = front q /\ frames q' = frames q /\
    max q' = max q /\ connectionData q' = connectionData q.
Proof.
  intros Hq. eexists. split; [apply addFrame_eq; assumption|].
  simpl. repeat split.
Qed.

Lemma addFrame_advances_rear_witness :
  exists q',
    addFrame (mock_queue 0 3) =
      Ret (rFilterId (connectionData (mock_queue 0 3))) q' /\
    rear q' = (rear (mock_queue 0 3) + 1) `mod` max (mock_queue 0 3) /\
    front q' = front (mock_queue 0 3) /\ frames q' = frames (mock_queue 0 3) /\
    max q' = max (mock_queue 0 3) /\
    connectionData q' = connectionData (mock_queue 0 3).
Proof.
  apply (addFrame_advances_rear (mock_queue 0 3)).
  apply mock_queue_in_range; lia.
Defined.

(** C5, as the claim has it, fails: on the connection from filter 1 to
    filter 2, [addFrame] returns 2, which is neither the id of the writing
    filter nor the id of its writer. *)
Lemma addFrame_returns_writer_counterexample :
  addFrame (mock_queue 0 0) = Ret 2 (mock_queue 0 1) /\
  ~ (exists q',
       addFrame (mock_queue 0 0) =
         Ret (wFilterId (connectionData (mock_queue 0 0))) q') /\
  ~ (exists q',
       addFrame (mock_queue 0 0) =
         Ret (writerId (connectionData (mock_queue 0 0))) q').
Proof.
  split; [reflexivity|].
  split; intros [q' E]; vm_compute in E; discriminate.
Qed.

(** C6, as the code has it.  With cursors in range, [removeFrame] moves
    [front] on by one slot modulo [max], leaves [rear] and [frames] alone,
    and returns [connectionData.wFilterId]: the id of the filter that writes
    to the queue. *)
Theorem removeFrame_advances_front (q : AVFramedQueue) :
  in_range q ->
  exists q',
    removeFrame q = Ret (wFilterId (connectionData q)) q' /\
    front q' = (front q + 1) `mod` max q /\
    rear q' = rear q /\ frames q' = frames q /\
    max q' = max q /\ connectionData q' = connectionData q.
Proof.
  intros Hq. eexists. split; [apply removeFrame_eq; assumption|].
  simpl. repeat split.
Qed.

Lemma removeFrame_advances_front_witness :
  exists q',
    removeFrame (mock_queue 3 1) =
      Ret (wFilterId (connectionData (mock_queue 3 1))) q' /\
    front q' = (front (mock_queue 3 1) + 1) `mod` max (mock_queue 3 1) /\
    rear q' = rear (mock_queue 3 1) /\ frames q' = frames (mock_queue 3 1) /\
    max q' = max (mock_queue 3 1) /\
    connectionData q' = connectionData (mock_queue 3 1).
Proof.
  apply (removeFrame_advances_front (mock_queue 3 1)).
  apply mock_queue_in_range; lia.
Defined.

(** C6, as the claim has it, fails: on the connection from filter 1 to
    reader 20 of filter 2, [removeFrame] returns 1, which is neither the id
    of the reader nor the id of the reading filter. *)
Lemma removeFrame_returns_reader_counterexample :
  removeFrame (mock_queue 0 1) = Ret 1 (mock_queue 1 1) /\
  ~ (exists q',
       removeFrame (mock_queue 0 1) =
         Ret (readerId (connectionData (mock_queue 0 1))) q') /\
  ~ (exists q',
       removeFrame (mock_queue 0 1) =
         Ret (rFilterId (connectionData (mock_queue 0 1))) q').
Proof.
  split; [reflexivity|].
  split; intros [q' E]; vm_compute in E; discriminate.
Qed.

(** ** The last delivered frame: forceGetFront *)

(** C7.  When the consumer has taken a frame with [getFront], released it
    with [removeFrame], and the queue is empty, [forceGetFront] returns the
    pointer that [getFront] returned: the one in slot
    [(front + max - 1) mod max]. *)
Theorem forceGetFront_last_delivered (q q' : AVFramedQueue) (p : FramePtr) (id : Z) :
  Invariant q ->
  getFront q = Ret p q -> p <> NULL ->
  removeFrame q = Ret id q' ->
  empty q' ->
  forceGetFront q' = Ret p q' /\
  frames q' !! Z.to_nat ((front q' + max q' - 1) `mod` max q') = Some p /\
  getElements q' = Ret 0 q'.
Proof.
  intros [Hq H2 Hw Ha] Hget Hp Hrem Hempty.
  rewrite (removeFrame_eq q Hq) in Hrem. injection Hrem as _ <-.
  set (q' := set_front ((front q + 1) `mod` max q) q) in *.
  assert (Hq' : in_range q').
  { apply in_range_set_front; [assumption | apply mod_in_range; assumption]. }
  rewrite (getFront_eq q) in Hget.
  destruct (decide (empty q)) as [|_]; [congruence|].
  assert (Hidx : (front q' + (max q' - 1)) `mod` max q' = front q).
  { destruct Hq as [Hm Hf Hr]. simpl.
    rewrite succ_mod by lia.
    rewrite pred_mod by (case_decide; lia).
    repeat case_decide; lia. }
  rewrite (forceGetFront_eq q' Hq' Hw).
  replace (front q' + max q' - 1) with (front q' + (max q' - 1)) by lia.
  rewrite Hidx.
  unfold slot in *. simpl.
  destruct (frames q !! Z.to_nat (front q)) as [p0|]; [|discriminate].
  injection Hget as ->.
  split; [reflexivity|]. split; [reflexivity|].
  rewrite (getElements_eq q' Hq'). unfold empty in Hempty. rewrite Hempty.
  rewrite Z.sub_diag, Z.mod_0_l; [reflexivity|]. destruct Hq' as [Hm _ _]. lia.
Qed.

Lemma forceGetFront_last_delivered_witness :
  forceGetFront (mock_queue 1 1) = Ret (FrameAt 0) (mock_queue 1 1) /\
  frames (mock_queue 1 1)
    !! Z.to_nat ((front (mock_queue 1 1) + max (mock_queue 1 1) - 1)
                 `mod` max (mock_queue 1 1)) = Some (FrameAt 0) /\
  getElements (mock_queue 1 1) = Ret 0 (mock_queue 1 1).
Proof.
  apply (forceGetFront_last_delivered (mock_queue 0 1) (mock_queue 1 1)
           (FrameAt 0) 1).
  - apply mock_queue_invariant; lia.
  - reflexivity.
  - discriminate.
  - reflexivity.
  - reflexivity.
Defined.

(** ** Construction of the typed queues *)

(** On the path where [setup] fails, [createNew] is the destructor run over
    the slots as the storage held them. *)
Lemma createNew_video_failure (MAX_H264_OR_5_NAL_SIZE LENGTH_VP8 : Z)
    (slots : list FramePtr) (cData : ConnectionData) (codec : VCodecType)
    (maxFrames : Z) (pixelFormat : PixType) (extradata : list Z)
    (extradata_size : Z) (h : Heap) :
  (codec = RAW /\ pixelFormat = P_NONE) \/
  (codec <> H264 /\ codec <> H265 /\ codec <> VP8 /\ codec <> RAW) ->
  VideoFrameQueue.setup MAX_H264_OR_5_NAL_SIZE LENGTH_VP8
    (h, VideoFrameQueue.new slots cData codec maxFrames pixelFormat)
    = Ret false (h, VideoFrameQueue.new slots cData codec maxFrames pixelFormat) /\
  VideoFrameQueue.createNew MAX_H264_OR_5_NAL_SIZE LENGTH_VP8
    slots cData codec maxFrames pixelFormat extradata extradata_size h
    = match AVFramedQueue_delete (h, AVFramedQueue_new slots cData maxFrames) with
      | Ret _ (h', _) => Ret None h'
      | Undefined => Undefined
      | OutOfFuel => OutOfFuel
      end.
Proof.
  intros Hcodec.
  assert (Hsetup :
    VideoFrameQueue.setup MAX_H264_OR_5_NAL_SIZE LENGTH_VP8
      (h, VideoFrameQueue.new slots cData codec maxFrames pixelFormat)
    = Ret false (h, VideoFrameQueue.new slots cData codec maxFrames pixelFormat)).
  { destruct Hcodec as [[-> ->] | (H1 & H2 & H3 & H4)]; [reflexivity|].
    destruct codec; try contradiction. reflexivity. }
  split; [exact Hsetup|].
  unfold VideoFrameQueue.createNew. rewrite Hsetup.
  unfold VideoFrameQueue.on_base, VideoFrameQueue.new. simpl.
  destruct (AVFramedQueue_delete (h, AVFramedQueue_new slots cData maxFrames))
    as [u [h' b']| |]; reflexivity.
Qed.

(** C8.  With codec RAW and pixel format P_NONE, and with a codec that is
    none of H264, H265, VP8 and RAW, [setup] fails, having filled no slot.
    [createNew] then deletes the queue, and the destructor deletes the frame
    of each of the [maxFrames] slots, which are as the storage held them.
    When these slots hold null pointers [createNew] returns null and the
    heap is as it was.  When one of them holds a pointer to no live frame,
    what [createNew] does is undefined.  Whenever [createNew] returns, it
    returns null, and every frame that one of these slots pointed to has
    been deleted. *)
Theorem createNew_video_rejected (MAX_H264_OR_5_NAL_SIZE LENGTH_VP8 : Z)
    (slots : list FramePtr) (cData : ConnectionData) (codec : VCodecType)
    (maxFrames : Z) (pixelFormat : PixType) (extradata : list Z)
    (extradata_size : Z) (h : Heap) :
  (codec = RAW /\ pixelFormat = P_NONE) \/
  (codec <> H264 /\ codec <> H265 /\ codec <> VP8 /\ codec <> RAW) ->
  value (VideoFrameQueue.setup MAX_H264_OR_5_NAL_SIZE LENGTH_VP8
           (h, VideoFrameQueue.new slots cData codec maxFrames pixelFormat))
    = Some false /\
  ((forall i, 0 <= i < maxFrames -> slots !! Z.to_nat i = Some NULL) ->
   VideoFrameQueue.createNew MAX_H264_OR_5_NAL_SIZE LENGTH_VP8
     slots cData codec maxFrames pixelFormat extradata extradata_size h
     = Ret None h) /\
  (forall i a,
     0 <= i < maxFrames -> slots !! Z.to_nat i = Some (FrameAt a) ->
     cells h !! a = None ->
     VideoFrameQueue.createNew MAX_H264_OR_5_NAL_SIZE LENGTH_VP8
       slots cData codec maxFrames pixelFormat extradata extradata_size h
       = Undefined) /\
  (forall r h',
     VideoFrameQueue.createNew MAX_H264_OR_5_NAL_SIZE LENGTH_VP8
       slots cData codec maxFrames pixelFormat extradata extradata_size h
       = Ret r h' ->
     r = None /\
     forall i a,
       0 <= i < maxFrames -> slots !! Z.to_nat i = Some (FrameAt a) ->
       cells h' !! a = None).
Proof.
  intros Hcodec.
  destruct (createNew_video_failure MAX_H264_OR_5_NAL_SIZE LENGTH_VP8 slots cData
              codec maxFrames pixelFormat extradata extradata_size h Hcodec)
    as [Hsetup ->].
  split; [rewrite Hsetup; reflexivity|]. split; [|split].
  - intros Hnull. rewrite delete_unfilled_null by exact Hnull. reflexivity.
  - intros i a Hi Ei Hdead.
    rewrite (delete_unfilled_dead slots cData maxFrames h i a Hi Ei Hdead).
    reflexivity.
  - intros r h'.
    destruct (AVFramedQueue_delete (h, AVFramedQueue_new slots cData maxFrames))
      as [u [h1 b1]| |] eqn:Ed; try discriminate.
    intros [= <- <-]. split; [reflexivity|].
    intros i a Hi Ei.
    exact (delete_unfilled_deleted slots cData maxFrames h h1 b1 u i a Ed Hi Ei).
Qed.

Lemma createNew_video_rejected_witness :
  value (VideoFrameQueue.setup 1000000 1000000
           (empty_heap, VideoFrameQueue.new (replicate 10 (FrameAt 1)) cData_1_to_2
                          RAW 10 P_NONE))
    = Some false /\
  ((forall i, 0 <= i < 10 -> replicate 10 (FrameAt 1) !! Z.to_nat i = Some NULL) ->
   VideoFrameQueue.createNew 1000000 1000000
     (replicate 10 (FrameAt 1)) cData_1_to_2 RAW 10 P_NONE [] 0 empty_heap
     = Ret None empty_heap) /\
  (forall i a,
     0 <= i < 10 -> replicate 10 (FrameAt 1) !! Z.to_nat i = Some (FrameAt a) ->
     cells empty_heap !! a = None ->
     VideoFrameQueue.createNew 1000000 1000000
       (replicate 10 (FrameAt 1)) cData_1_to_2 RAW 10 P_NONE [] 0 empty_heap
       = Undefined) /\
  (forall r h',
     VideoFrameQueue.createNew 1000000 1000000
       (replicate 10 (FrameAt 1)) cData_1_to_2 RAW 10 P_NONE [] 0 empty_heap
       = Ret r h' ->
     r = None /\
     forall i a,
       0 <= i < 10 -> replicate 10 (FrameAt 1) !! Z.to_nat i = Some (FrameAt a) ->
       cells h' !! a = None).
Proof.
  apply (createNew_video_rejected 1000000 1000000 (replicate 10 (FrameAt 1))
           cData_1_to_2 RAW 10 P_NONE [] 0 empty_heap).
  left. split; reflexivity.
Defined.

(** The code at the input of scenario S3 on storage that is not zero:
    [createNew] does not return null. *)
Lemma createNew_video_unfilled_slots :
  VideoFrameQueue.createNew 1000000 1000000
    (replicate 10 (FrameAt 1)) cData_1_to_2 RAW 10 P_NONE [] 0 empty_heap
    = Undefined /\
  VideoFrameQueue.createNew 1000000 1000000
    (replicate 10 NULL) cData_1_to_2 RAW 10 P_NONE [] 0 empty_heap
    = Ret None empty_heap /\
  VideoFrameQueue.createNew 1000000 1000000
    (FrameAt 0 :: replicate 9 NULL) cData_1_to_2 RAW 10 P_NONE [] 0
    (mock_heap 1 2 3 4)
    = Ret None (mkHeap (delete 0%nat (cells (mock_heap 1 2 3 4))) 4).
Proof. repeat split. Qed.

(** C9.  [AudioFrameQueue::createNew] with codec OPUS, AAC or MP3 gives a
    queue, whatever the sample format asked for (and the connection, the
    sample rate and the number of channels), and the sample format of this
    queue is S16; provided the frames asked for fit in the array. *)
Theorem createNew_audio_forces_S16 (getMaxSamples : Z -> Z)
    (slots : list FramePtr) (cData : ConnectionData) (codec : ACodecType)
    (maxFrames sampleRate channels : Z) (sFmt : SampleFmt)
    (extradata : list Z) (extradata_size : Z) (h : Heap) :
  codec = OPUS \/ codec = AAC \/ codec = MP3 ->
  maxFrames <= Z.of_nat (length slots) ->
  exists q h',
    AudioFrameQueue.createNew getMaxSamples slots cData codec maxFrames
      sampleRate channels sFmt extradata extradata_size h = Ret (Some q) h' /\
    AudioFrameQueue.sampleFormat q = S16 /\
    AudioFrameQueue.codec q = codec /\
    AudioFrameQueue.sampleRate q = sampleRate /\
    AudioFrameQueue.channels q = channels.
Proof.
  intros Hcodec Hfit.
  set (create := fun _ : nat =>
    mkFrame (InterleavedAudioFrame channels sampleRate (getMaxSamples sampleRate)
               codec S16) 0).
  destruct (fill_all_ok create h (AVFramedQueue_new slots cData maxFrames) Hfit)
    as (h' & fs & E).
  assert (Hsetup :
    AudioFrameQueue.setup getMaxSamples
      (h, AudioFrameQueue.new slots cData codec maxFrames sFmt sampleRate channels)
    = Ret true
        (h', AudioFrameQueue.mk
               (set_frames fs (AVFramedQueue_new slots cData maxFrames))
               codec S16 sampleRate channels None None)).
  { unfold AudioFrameQueue.setup, AudioFrameQueue.new.
    destruct Hcodec as [-> | [-> | ->]];
      unfold bind, AudioFrameQueue.this, AudioFrameQueue.update, gets, modify,
        AudioFrameQueue.fill_interleaved, AudioFrameQueue.on_base, bind,
        AudioFrameQueue.this, gets; simpl;
      fold create; rewrite E; reflexivity. }
  unfold AudioFrameQueue.createNew. rewrite Hsetup.
  eexists _, _. split; [reflexivity|]. simpl. repeat split.
Qed.

Lemma createNew_audio_forces_S16_witness :
  exists q h',
    AudioFrameQueue.createNew (fun sampleRate => sampleRate) (replicate 10 NULL)
      cData_1_to_2 OPUS 10 48000 2 FLT [] 0 empty_heap = Ret (Some q) h' /\
    AudioFrameQueue.sampleFormat q = S16 /\
    AudioFrameQueue.codec q = OPUS /\
    AudioFrameQueue.sampleRate q = 48000 /\
    AudioFrameQueue.channels q = 2.
Proof.
  apply (createNew_audio_forces_S16 (fun sampleRate => sampleRate)
           (replicate 10 NULL) cData_1_to_2 OPUS 10 48000 2 FLT [] 0 empty_heap).
  - left. reflexivity.
  - simpl. lia.
Defined.

(** ** Release without a frame *)

(** C10.  [removeFrame] does not look whether the queue is empty.  On an
    empty queue [getFront] gives null, yet [removeFrame] returns as usual
    and moves [front] one slot past [rear]; after it [getElements] is
    [max - 1]. *)
Theorem removeFrame_on_empty (q : AVFramedQueue) :
  in_range q -> front q = rear q ->
  getFront q = Ret NULL q /\
  exists q',
    removeFrame q = Ret (wFilterId (connectionData q)) q' /\
    front q' = (rear q + 1) `mod` max q /\ rear q' = rear q /\
    getElements q' = Ret (max q - 1) q'.
Proof.
  intros Hq Hempty. split.
  - rewrite (getFront_eq q). rewrite decide_True; [reflexivity|].
    unfold empty. congruence.
  - eexists. split; [apply removeFrame_eq; assumption|].
    split; [simpl; congruence|]. split; [reflexivity|].
    set (q' := set_front ((front q + 1) `mod` max q) q).
    assert (Hq' : in_range q').
    { apply in_range_set_front; [assumption | apply mod_in_range; assumption]. }
    rewrite (getElements_eq q' Hq'). f_equal.
    destruct Hq as [Hm Hf Hr]. subst q'. simpl.
    rewrite succ_mod by lia.
    rewrite diff_mod by (repeat case_decide; lia).
    repeat case_decide; lia.
Qed.

Lemma removeFrame_on_empty_witness :
  getFront (mock_queue 2 2) = Ret NULL (mock_queue 2 2) /\
  exists q',
    removeFrame (mock_queue 2 2) =
      Ret (wFilterId (connectionData (mock_queue 2 2))) q' /\
    front q' = (rear (mock_queue 2 2) + 1) `mod` max (mock_queue 2 2) /\
    rear q' = rear (mock_queue 2 2) /\
    getElements q' = Ret (max (mock_queue 2 2) - 1) q'.
Proof.
  apply (removeFrame_on_empty (mock_queue 2 2)).
  - apply mock_queue_in_range; lia.
  - reflexivity.
Defined.

(** * Further properties of the queue *)

(** ** What the methods leave alone *)

Lemma addFrame_frame (q q' : AVFramedQueue) (id : Z) :
  addFrame q = Ret id q' ->
  frames q' = frames q /\ max q' = max q /\ connectionData q' = connectionData q /\
  front q' = front q.
Proof.
  unfold addFrame, bind, gets, modify, urem, ret, undefined.
  case_decide; [discriminate|]. intros [= _ <-]. simpl. repeat split.
Qed.

Lemma removeFrame_frame (q q' : AVFramedQueue) (id : Z) :
  removeFrame q = Ret id q' ->
  frames q' = frames q /\ max q' = max q /\ connectionData q' = connectionData q /\
  rear q' = rear q.
Proof.
  unfold removeFrame, bind, gets, modify, urem, ret, undefined.
  case_decide; [discriminate|]. intros [= _ <-]. simpl. repeat split.
Qed.

Lemma flush_frame (q q' : AVFramedQueue) (u : unit) :
  flush q = Ret u q' ->
  frames q' = frames q /\ max q' = max q /\ connectionData q' = connectionData q /\
  front q' = front q.
Proof.
  unfold flush, bind, gets, modify, urem, ret, undefined.
  case_decide; [discriminate|]. intros [= _ <-]. simpl. repeat split.
Qed.

Lemma forceGetRear_frame (fuel : nat) :
  forall q p q',
    forceGetRear fuel q = Ret p q' ->
    frames q' = frames q /\ max q' = max q /\ connectionData q' = connectionData q /\
    front q' = front q.
Proof.
  induction fuel as [|fuel IH]; intros q p q'; [discriminate|].
  simpl. unfold bind at 1.
  destruct (getRear q) as [frame q1| |] eqn:E; try discriminate.
  apply getRear_state in E. subst q1.
  case_decide.
  - unfold bind. destruct (flush q) as [u q1| |] eqn:Ef; try discriminate.
    intros Hrec. apply IH in Hrec. apply flush_frame in Ef.
    destruct Hrec as (-> & -> & -> & ->). exact Ef.
  - intros [= _ <-]. repeat split.
Qed.

Lemma step_frame (q q' : AVFramedQueue) :
  step q q' ->
  frames q' = frames q /\ max q' = max q /\ connectionData q' = connectionData q.
Proof.
  intros [p id q1 _ _ E | fuel p q1 E | p id q1 _ _ E].
  - apply addFrame_frame in E. tauto.
  - apply forceGetRear_frame in E. tauto.
  - apply removeFrame_frame in E. tauto.
Qed.

(** X1.  Along every run of the protocol from a state that satisfies the
    invariants, the invariants hold, and the array of frames, the number of
    slots and the connection stay what they were: the queue never replaces a
    frame. *)
Theorem reachable_keeps_frames (q0 q : AVFramedQueue) :
  Invariant q0 -> reachable q0 q ->
  Invariant q /\
  frames q = frames q0 /\ max q = max q0 /\ connectionData q = connectionData q0.
Proof.
  intros H0 Hreach.
  induction Hreach as [|q q' Hreach IH Hstep]; [tauto|].
  destruct IH as ([Hq H2 Hw Ha] & Hf & Hm & Hc).
  destruct (step_frame q q' Hstep) as (Hf' & Hm' & Hc').
  split; [|split; [congruence | split; congruence]].
  split.
  - eapply step_in_range; eassumption.
  - rewrite Hm'. assumption.
  - rewrite Hm'. assumption.
  - intros i Hi. rewrite Hf'. apply Ha. rewrite <- Hm'. assumption.
Qed.

Lemma reachable_keeps_frames_witness :
  Invariant (mock_queue 0 1) /\
  frames (mock_queue 0 1) = frames (mock_queue 0 0) /\
  max (mock_queue 0 1) = max (mock_queue 0 0) /\
  connectionData (mock_queue 0 1) = connectionData (mock_queue 0 0).
Proof.
  apply (reachable_keeps_frames (mock_queue 0 0) (mock_queue 0 1)).
  - apply mock_queue_invariant; lia.
  - apply (reach_step _ (mock_queue 0 0)); [apply reach_start|].
    apply (step_publish _ (FrameAt 0) 2); [reflexivity | discriminate | reflexivity].
Defined.

(** ** The consumer's peek *)

(** X2.  [getFront] gives null exactly when the cursors are equal, and the
    frame of slot [front] otherwise; it leaves the queue as it was. *)
Theorem getFront_null_iff_empty (q : AVFramedQueue) :
  in_range q -> allocated q ->
  exists p,
    getFront q = Ret p q /\
    (p = NULL <-> rear q = front q) /\
    (rear q <> front q -> frames q !! Z.to_nat (front q) = Some p).
Proof.
  intros Hq Ha. rewrite (getFront_eq q). unfold empty.
  destruct (decide (rear q = front q)) as [He | Hne].
  - exists NULL. split; [reflexivity|]. split; [tauto | contradiction].
  - destruct (Ha (front q)) as [a E]; [apply Hq|].
    exists (FrameAt a). unfold slot. rewrite E.
    split; [reflexivity|]. split; [split; [discriminate | contradiction]|].
    reflexivity.
Qed.

Lemma getFront_null_iff_empty_witness :
  exists p,
    getFront (mock_queue 1 3) = Ret p (mock_queue 1 3) /\
    (p = NULL <-> rear (mock_queue 1 3) = front (mock_queue 1 3)) /\
    (rear (mock_queue 1 3) <> front (mock_queue 1 3) ->
     frames (mock_queue 1 3) !! Z.to_nat (front (mock_queue 1 3)) = Some p).
Proof.
  apply (getFront_null_iff_empty (mock_queue 1 3)).
  - apply mock_queue_in_range; lia.
  - apply mock_queue_allocated.
Defined.

(** ** How the cursor moves compose *)

Lemma set_front_same (q : AVFramedQueue) (f : Z) : f = front q -> set_front f q = q.
Proof. intros ->. destruct q. reflexivity. Qed.

Lemma succ_pred_mod (r m : Z) :
  0 <= r < m -> ((r + 1) `mod` m + (m - 1)) `mod` m = r.
Proof.
  intros H. rewrite succ_mod by lia.
  rewrite pred_mod by (case_decide; lia).
  repeat case_decide; lia.
Qed.

Lemma pred_succ_mod (r m : Z) :
  0 <= r < m -> ((r + (m - 1)) `mod` m + 1) `mod` m = r.
Proof.
  intros H. rewrite pred_mod by lia.
  rewrite succ_mod by (case_decide; lia).
  repeat case_decide; lia.
Qed.

(** X3.  [flush] takes back what [addFrame] did, and [addFrame] what [flush]
    did: either way round the two leave the queue exactly as it was, whether
    it was full, empty or neither. *)
Theorem flush_undoes_addFrame (q : AVFramedQueue) :
  in_range q -> 2 * max q <= UINT_MODULUS ->
  (addFrame >> flush) q = Ret tt q /\
  (flush >> addFrame) q = Ret (rFilterId (connectionData q)) q.
Proof.
  intros Hq Hw. pose proof (range_rear q Hq) as Hr. split.
  - unfold bind. rewrite (addFrame_eq q Hq).
    set (q1 := set_rear ((rear q + 1) `mod` max q) q).
    assert (Hq1 : in_range q1).
    { apply in_range_set_rear; [assumption | apply mod_in_range; assumption]. }
    rewrite (flush_eq q1 Hq1 Hw). f_equal. subst q1. simpl.
    rewrite succ_pred_mod by assumption.
    destruct q. reflexivity.
  - unfold bind. rewrite (flush_eq q Hq Hw).
    set (q1 := set_rear ((rear q + (max q - 1)) `mod` max q) q).
    assert (Hq1 : in_range q1).
    { apply in_range_set_rear; [assumption | apply mod_in_range; assumption]. }
    rewrite (addFrame_eq q1 Hq1). f_equal. subst q1. simpl.
    rewrite pred_succ_mod by assumption.
    destruct q. reflexivity.
Qed.

Lemma flush_undoes_addFrame_witness :
  (addFrame >> flush) (mock_queue 2 1) = Ret tt (mock_queue 2 1) /\
  (flush >> addFrame) (mock_queue 2 1) =
    Ret (rFilterId (connectionData (mock_queue 2 1))) (mock_queue 2 1).
Proof.
  apply (flush_undoes_addFrame (mock_queue 2 1)).
  - apply mock_queue_in_range; lia.
  - simpl. unfold UINT_MODULUS. lia.
Defined.

(** X4.  The producer's move and the consumer's move do not interfere:
    [addFrame] then [removeFrame] and [removeFrame] then [addFrame] return the
    same ids and end in the same queue. *)
Theorem addFrame_removeFrame_commute (q : AVFramedQueue) :
  in_range q ->
  exists q',
    (let* a := addFrame in let* r := removeFrame in ret (a, r)) q =
      Ret (rFilterId (connectionData q), wFilterId (connectionData q)) q' /\
    (let* r := removeFrame in let* a := addFrame in ret (a, r)) q =
      Ret (rFilterId (connectionData q), wFilterId (connectionData q)) q' /\
    rear q' = (rear q + 1) `mod` max q /\
    front q' = (front q + 1) `mod` max q.
Proof.
  intros Hq.
  exists (set_front ((front q + 1) `mod` max q)
            (set_rear ((rear q + 1) `mod` max q) q)).
  unfold bind. rewrite (addFrame_eq q Hq), (removeFrame_eq q Hq).
  rewrite removeFrame_eq
    by (apply in_range_set_rear; [assumption | apply mod_in_range; assumption]).
  rewrite addFrame_eq
    by (apply in_range_set_front; [assumption | apply mod_in_range; assumption]).
  simpl. repeat split.
Qed.

Lemma addFrame_removeFrame_commute_witness :
  exists q',
    (let* a := addFrame in let* r := removeFrame in ret (a, r)) (mock_queue 3 1) =
      Ret (rFilterId (connectionData (mock_queue 3 1)),
           wFilterId (connectionData (mock_queue 3 1))) q' /\
    (let* r := removeFrame in let* a := addFrame in ret (a, r)) (mock_queue 3 1) =
      Ret (rFilterId (connectionData (mock_queue 3 1)),
           wFilterId (connectionData (mock_queue 3 1))) q' /\
    rear q' = (rear (mock_queue 3 1) + 1) `mod` max (mock_queue 3 1) /\
    front q' = (front (mock_queue 3 1) + 1) `mod` max (mock_queue 3 1).
Proof.
  apply (addFrame_removeFrame_commute (mock_queue 3 1)).
  apply mock_queue_in_range; lia.
Defined.

(** ** Moves made without looking *)

(** X5.  [addFrame] does not look whether the queue is full.  On a full
    queue it returns as usual and brings [rear] onto [front]: the queue then
    counts no frame and [getFront] gives null, so every frame that was in it
    is out of the consumer's reach. *)
Theorem addFrame_on_full (q : AVFramedQueue) :
  in_range q -> full q ->
  getRear q = Ret NULL q /\
  exists q',
    addFrame q = Ret (rFilterId (connectionData q)) q' /\
    rear q' = front q /\ front q' = front q /\
    getElements q' = Ret 0 q' /\
    getFront q' = Ret NULL q'.
Proof.
  intros Hq Hfull. split.
  - rewrite (getRear_eq q Hq). rewrite decide_True by assumption. reflexivity.
  - eexists. split; [apply addFrame_eq; assumption|].
    set (q' := set_rear ((rear q + 1) `mod` max q) q).
    assert (Hq' : in_range q').
    { apply in_range_set_rear; [assumption | apply mod_in_range; assumption]. }
    assert (Hr : rear q' = front q') by exact Hfull.
    split; [exact Hfull|]. split; [reflexivity|]. split.
    + rewrite (getElements_eq q' Hq'). rewrite Hr, Z.sub_diag.
      rewrite Z.mod_0_l; [reflexivity|]. destruct Hq' as [Hm _ _]. lia.
    + rewrite (getFront_eq q'). rewrite decide_True by exact Hr. reflexivity.
Qed.

Lemma addFrame_on_full_witness :
  getRear (mock_queue 1 0) = Ret NULL (mock_queue 1 0) /\
  exists q',
    addFrame (mock_queue 1 0) =
      Ret (rFilterId (connectionData (mock_queue 1 0))) q' /\
    rear q' = front (mock_queue 1 0) /\ front q' = front (mock_queue 1 0) /\
    getElements q' = Ret 0 q' /\
    getFront q' = Ret NULL q'.
Proof.
  apply (addFrame_on_full (mock_queue 1 0)).
  - apply mock_queue_in_range; lia.
  - reflexivity.
Defined.

(** X6.  [flush] does not look whether there is a frame to take back.  On an
    empty queue it moves [rear] to the slot before [front]: the queue then
    counts [max - 1] frames, none of which was ever published, and
    [getRear] gives null. *)
Theorem flush_on_empty (q : AVFramedQueue) :
  in_range q -> 2 * max q <= UINT_MODULUS -> rear q = front q ->
  exists q',
    flush q = Ret tt q' /\
    front q' = front q /\
    getElements q' = Ret (max q - 1) q' /\
    getRear q' = Ret NULL q'.
Proof.
  intros Hq Hw Hempty. eexists. split; [apply flush_eq; assumption|].
  set (q' := set_rear ((rear q + (max q - 1)) `mod` max q) q).
  assert (Hq' : in_range q').
  { apply in_range_set_rear; [assumption | apply mod_in_range; assumption]. }
  split; [reflexivity|]. split.
  - rewrite (getElements_eq q' Hq'). f_equal.
    destruct Hq as [Hm Hf Hr]. subst q'. simpl.
    rewrite pred_mod by lia.
    rewrite diff_mod by (repeat case_decide; lia).
    repeat case_decide; lia.
  - rewrite (getRear_eq q' Hq'). rewrite decide_True; [reflexivity|].
    unfold full. subst q'. simpl. rewrite pred_succ_mod by apply Hq. assumption.
Qed.

Lemma flush_on_empty_witness :
  exists q',
    flush (mock_queue 2 2) = Ret tt q' /\
    front q' = front (mock_queue 2 2) /\
    getElements q' = Ret (max (mock_queue 2 2) - 1) q' /\
    getRear q' = Ret NULL q'.
Proof.
  apply (flush_on_empty (mock_queue 2 2)).
  - apply mock_queue_in_range; lia.
  - simpl. unfold UINT_MODULUS. lia.
  - reflexivity.
Defined.

(** X7.  [getElements] follows the protocol: a publication on a queue that
    is not full adds one to it, a release on a queue that is not empty takes
    one off it. *)
Theorem getElements_counts (q : AVFramedQueue) :
  in_range q ->
  exists n,
    getElements q = Ret n q /\
    (~ full q ->
     exists id q', addFrame q = Ret id q' /\ getElements q' = Ret (n + 1) q') /\
    (rear q <> front q ->
     exists id q', removeFrame q = Ret id q' /\ getElements q' = Ret (n - 1) q').
Proof.
  intros Hq. exists ((rear q - front q) `mod` max q).
  split; [apply getElements_eq; assumption|].
  pose proof Hq as [Hm Hf Hr]. split.
  - intros Hnf. eexists _, _. split; [apply addFrame_eq; assumption|].
    rewrite getElements_eq
      by (apply in_range_set_rear; [assumption | apply mod_in_range; assumption]).
    f_equal. unfold full in Hnf. simpl.
    rewrite succ_mod in * by lia.
    rewrite !diff_mod by (repeat case_decide; lia).
    repeat case_decide; lia.
  - intros Hne. eexists _, _. split; [apply removeFrame_eq; assumption|].
    rewrite getElements_eq
      by (apply in_range_set_front; [assumption | apply mod_in_range; assumption]).
    f_equal. simpl.
    rewrite succ_mod by lia.
    rewrite !diff_mod by (repeat case_decide; lia).
    repeat case_decide; lia.
Qed.

Lemma getElements_counts_witness :
  exists n,
    getElements (mock_queue 3 1) = Ret n (mock_queue 3 1) /\
    (~ full (mock_queue 3 1) ->
     exists id q',
       addFrame (mock_queue 3 1) = Ret id q' /\ getElements q' = Ret (n + 1) q') /\
    (rear (mock_queue 3 1) <> front (mock_queue 3 1) ->
     exists id q',
       removeFrame (mock_queue 3 1) = Ret id q' /\ getElements q' = Ret (n - 1) q').
Proof.
  apply (getElements_counts (mock_queue 3 1)).
  apply mock_queue_in_range; lia.
Defined.

(** ** The forced slot *)

Lemma forceGetRear_is_getRear (q : AVFramedQueue) (fuel : nat) :
  in_range q -> allocated q -> ~ full q ->
  exists a,
    getRear q = Ret (FrameAt a) q /\ forceGetRear (S fuel) q = Ret (FrameAt a) q.
Proof.
  intros Hq Ha Hnf.
  destruct (slot_allocated q (rear q) Ha) as [a E]; [apply Hq|].
  assert (Hget : getRear q = Ret (FrameAt a) q).
  { rewrite (getRear_eq q Hq). rewrite decide_False by assumption. exact E. }
  exists a. split; [exact Hget|].
  simpl. unfold bind. rewrite Hget.
  rewrite decide_False by discriminate. reflexivity.
Qed.

Lemma forceGetRear_result (q : AVFramedQueue) (fuel : nat) :
  Invariant q -> (2 <= fuel)%nat ->
  exists p q',
    forceGetRear fuel q = Ret p q' /\
    getRear q' = Ret p q' /\ p <> NULL /\
    front q' = front q /\
    (~ full q -> q' = q) /\
    (full q ->
     rear q' = (rear q + (max q - 1)) `mod` max q /\
     addFrame q' = Ret (rFilterId (connectionData q)) q).
Proof.
  intros [Hq H2 Hw Ha] Hfuel.
  destruct fuel as [|[|fuel]]; [lia | lia |].
  destruct (decide (full q)) as [Hfull | Hnf].
  - destruct (flush_full q Hq H2 Hfull) as [Hnf' _].
    set (q' := set_rear ((rear q + (max q - 1)) `mod` max q) q) in *.
    assert (Hq' : in_range q').
    { apply in_range_set_rear; [assumption | apply mod_in_range; assumption]. }
    destruct (forceGetRear_is_getRear q' fuel Hq' Ha Hnf') as (a & Hget & Hforce).
    exists (FrameAt a), q'. split.
    + change (forceGetRear (S (S fuel)) q) with
        (bind getRear (fun frame => if decide (frame = NULL)
           then flush >> forceGetRear (S fuel) else ret frame) q).
      unfold bind at 1. rewrite (getRear_eq q Hq).
      rewrite decide_True by assumption. rewrite decide_True by reflexivity.
      unfold bind. rewrite (flush_eq q Hq Hw). exact Hforce.
    + split; [exact Hget|]. split; [discriminate|]. split; [reflexivity|].
      split; [intros Hnf; contradiction|]. intros _. split; [reflexivity|].
      rewrite (addFrame_eq q' Hq'). f_equal. subst q'. simpl.
      rewrite pred_succ_mod by apply Hq. destruct q. reflexivity.
  - destruct (forceGetRear_is_getRear q (S fuel) Hq Ha Hnf) as (a & Hget & Hforce).
    exists (FrameAt a), q. split; [exact Hforce|]. split; [exact Hget|].
    split; [discriminate|]. split; [reflexivity|]. split; [reflexivity|].
    intros Hfull. contradiction.
Qed.

(** X8.  After [forceGetRear] the queue has room, and the slot handed out is
    the one [getRear] now gives.  A queue that had room is left as it was.
    On a full queue only [rear] moves, one slot back, and publishing the
    forced slot gives back the very queue there was: the newest frame has
    been replaced, nothing else. *)
Theorem forceGetRear_makes_room (q : AVFramedQueue) (fuel : nat) :
  Invariant q -> (2 <= fuel)%nat ->
  exists p q',
    forceGetRear fuel q = Ret p q' /\
    getRear q' = Ret p q' /\ p <> NULL /\
    front q' = front q /\
    (~ full q -> q' = q) /\
    (full q ->
     rear q' = (rear q + (max q - 1)) `mod` max q /\
     addFrame q' = Ret (rFilterId (connectionData q)) q).
Proof. apply forceGetRear_result. Qed.

Lemma forceGetRear_makes_room_witness :
  exists p q',
    forceGetRear 2 (mock_queue 1 0) = Ret p q' /\
    getRear q' = Ret p q' /\ p <> NULL /\
    front q' = front (mock_queue 1 0) /\
    (~ full (mock_queue 1 0) -> q' = mock_queue 1 0) /\
    (full (mock_queue 1 0) ->
     rear q' = (rear (mock_queue 1 0) + (max (mock_queue 1 0) - 1))
               `mod` max (mock_queue 1 0) /\
     addFrame q' =
       Ret (rFilterId (connectionData (mock_queue 1 0))) (mock_queue 1 0)).
Proof.
  apply (forceGetRear_makes_room (mock_queue 1 0) 2).
  - apply mock_queue_invariant; lia.
  - lia.
Defined.

(** X9.  Under the invariants [forceGetFront] always gives a frame, the one
    of the slot before [front], and leaves the queue as it was; on a queue
    whose [front] is at slot 0, as it is after construction, this is the
    frame of the last slot. *)
Theorem forceGetFront_never_null (q : AVFramedQueue) :
  Invariant q ->
  exists a,
    forceGetFront q = Ret (FrameAt a) q /\
    frames q !! Z.to_nat ((front q + (max q - 1)) `mod` max q) = Some (FrameAt a) /\
    (front q = 0 -> frames q !! Z.to_nat (max q - 1) = Some (FrameAt a)).
Proof.
  intros [Hq H2 Hw Ha].
  rewrite (forceGetFront_eq q Hq Hw).
  destruct (Ha ((front q + (max q - 1)) `mod` max q)) as [a E];
    [apply mod_in_range; assumption|].
  exists a. unfold slot. rewrite E. split; [reflexivity|]. split; [reflexivity|].
  intros H0. rewrite H0, Z.add_0_l, Z.mod_small in E by lia. exact E.
Qed.

Lemma forceGetFront_never_null_witness :
  exists a,
    forceGetFront (mock_queue 0 0) = Ret (FrameAt a) (mock_queue 0 0) /\
    frames (mock_queue 0 0)
      !! Z.to_nat ((front (mock_queue 0 0) + (max (mock_queue 0 0) - 1))
                   `mod` max (mock_queue 0 0)) = Some (FrameAt a) /\
    (front (mock_queue 0 0) = 0 ->
     frames (mock_queue 0 0) !! Z.to_nat (max (mock_queue 0 0) - 1)
       = Some (FrameAt a)).
Proof.
  apply (forceGetFront_never_null (mock_queue 0 0)).
  apply mock_queue_invariant; lia.
Defined.

(** ** What the consumer is handed *)

Lemma queued_empty (q : AVFramedQueue) :
  in_range q -> rear q = front q -> queued q = [].
Proof.
  intros [Hm _ _] He. unfold queued.
  rewrite He, Z.sub_diag, Z.mod_0_l by lia. reflexivity.
Qed.

Lemma queued_front (q : AVFramedQueue) (a : nat) :
  in_range q -> rear q <> front q ->
  frames q !! Z.to_nat (front q) = Some (FrameAt a) ->
  queued q = FrameAt a :: queued (set_front ((front q + 1) `mod` max q) q).
Proof.
  intros [Hm Hf Hr] Hne E. unfold queued. simpl.
  assert (Hn : Z.to_nat ((rear q - front q) `mod` max q) =
               S (Z.to_nat ((rear q - (front q + 1) `mod` max q) `mod` max q))).
  { rewrite succ_mod by lia.
    rewrite !diff_mod by (repeat case_decide; lia).
    repeat case_decide; lia. }
  rewrite Hn. simpl. f_equal.
  - rewrite Z.add_0_r, Z.mod_small by lia. rewrite E. reflexivity.
  - rewrite <- seq_shift, map_map. apply map_ext. intros i.
    rewrite Z.add_mod_idemp_l by lia.
    replace (front q + Z.of_nat (S i)) with (front q + 1 + Z.of_nat i) by lia.
    reflexivity.
Qed.

Lemma queued_rear (q : AVFramedQueue) (a : nat) :
  in_range q -> ~ full q ->
  frames q !! Z.to_nat (rear q) = Some (FrameAt a) ->
  queued (set_rear ((rear q + 1) `mod` max q) q) = queued q ++ [FrameAt a].
Proof.
  intros [Hm Hf Hr] Hnf E. unfold queued, full in *. simpl.
  assert (Hn : Z.to_nat (((rear q + 1) `mod` max q - front q) `mod` max q) =
               S (Z.to_nat ((rear q - front q) `mod` max q))).
  { rewrite succ_mod in * by lia.
    rewrite !diff_mod by (repeat case_decide; lia).
    repeat case_decide; lia. }
  rewrite Hn, seq_S, map_app. simpl. do 2 f_equal.
  rewrite Z2Nat.id by (apply Z.mod_pos_bound; lia).
  rewrite Z.add_mod_idemp_r by lia.
  replace (front q + (rear q - front q)) with (rear q) by lia.
  rewrite Z.mod_small by lia. rewrite E. reflexivity.
Qed.

Lemma queued_length (q : AVFramedQueue) :
  in_range q -> Z.of_nat (length (queued q)) = (rear q - front q) `mod` max q.
Proof.
  intros [Hm _ _]. unfold queued. rewrite length_map, length_seq.
  apply Z2Nat.id. apply Z.mod_pos_bound. lia.
Qed.

Lemma queued_allocated (q : AVFramedQueue) :
  in_range q -> allocated q -> Forall (fun p => p <> NULL) (queued q).
Proof.
  intros [Hm _ _] Ha. unfold queued. apply Forall_forall. intros p Hp.
  apply list_elem_of_In, in_map_iff in Hp. destruct Hp as (i & <- & _).
  destruct (Ha ((front q + Z.of_nat i) `mod` max q)) as [a E];
    [apply Z.mod_pos_bound; lia|].
  rewrite E. discriminate.
Qed.

(** A drain with fuel for one more than the frames in the queue hands out
    the frames between the cursors and leaves [front] on [rear]. *)
Lemma drain_queued (n : nat) :
  forall (q : AVFramedQueue) (fuel : nat),
    in_range q -> allocated q ->
    Z.to_nat ((rear q - front q) `mod` max q) = n -> (n < fuel)%nat ->
    drain fuel q = Ret (queued q) (set_front (rear q) q).
Proof.
  induction n as [|n IH]; intros q fuel Hq Ha Hn Hfuel;
    (destruct fuel as [|fuel]; [lia|]); pose proof Hq as [Hm Hf Hr].
  - assert (He : rear q = front q).
    { rewrite diff_mod in Hn by lia. case_decide; lia. }
    simpl. unfold bind. rewrite (getFront_eq q).
    rewrite decide_True by exact He. rewrite decide_True by reflexivity.
    rewrite (queued_empty q Hq He). unfold ret. f_equal.
    symmetry. apply set_front_same. exact He.
  - assert (Hne : rear q <> front q).
    { intros He. rewrite He, Z.sub_diag, Z.mod_0_l in Hn by lia. discriminate. }
    destruct (Ha (front q) Hf) as [a E].
    simpl. unfold bind at 1. rewrite (getFront_eq q).
    rewrite decide_False by exact Hne. unfold slot. rewrite E.
    rewrite decide_False by discriminate.
    unfold bind at 1. rewrite (removeFrame_eq q Hq).
    set (q1 := set_front ((front q + 1) `mod` max q) q).
    assert (Hq1 : in_range q1).
    { apply in_range_set_front; [assumption | apply mod_in_range; assumption]. }
    unfold bind. rewrite (IH q1 fuel Hq1 Ha).
    + unfold ret. rewrite (queued_front q a Hq Hne E). reflexivity.
    + subst q1. simpl. rewrite succ_mod by lia.
      rewrite diff_mod in * by (repeat case_decide; lia).
      repeat case_decide; lia.
    + lia.
Qed.

Lemma drain_all (q : AVFramedQueue) :
  in_range q -> allocated q ->
  drain (S (Z.to_nat (max q))) q = Ret (queued q) (set_front (rear q) q).
Proof.
  intros Hq Ha. apply (drain_queued _ q _ Hq Ha eq_refl).
  pose proof (mod_in_range q (rear q - front q) Hq). lia.
Qed.

Lemma drain_after_addFrame (q : AVFramedQueue) :
  in_range q -> allocated q -> ~ full q ->
  exists a,
    getRear q = Ret (FrameAt a) q /\
    drain (S (Z.to_nat (max q))) (set_rear ((rear q + 1) `mod` max q) q) =
      Ret (queued q ++ [FrameAt a])
          (set_front ((rear q + 1) `mod` max q)
             (set_rear ((rear q + 1) `mod` max q) q)).
Proof.
  intros Hq Ha Hnf.
  destruct (Ha (rear q)) as [a E]; [apply Hq|].
  exists a. split.
  - rewrite (getRear_eq q Hq). rewrite decide_False by assumption.
    unfold slot. rewrite E. reflexivity.
  - set (q' := set_rear ((rear q + 1) `mod` max q) q).
    assert (Hq' : in_range q').
    { apply in_range_set_rear; [assumption | apply mod_in_range; assumption]. }
    rewrite <- (queued_rear q a Hq Hnf E).
    apply (drain_all q' Hq' Ha).
Qed.

(** X10.  A consumer that takes frames until [getFront] gives null is handed
    as many frames as [getElements] counted, none of them null, and leaves
    the queue empty with [front] where [rear] is. *)
Theorem drain_takes_every_frame (q : AVFramedQueue) :
  in_range q -> allocated q ->
  exists n ps q',
    getElements q = Ret n q /\
    drain (S (Z.to_nat (max q))) q = Ret ps q' /\
    Z.of_nat (length ps) = n /\
    Forall (fun p => p <> NULL) ps /\
    front q' = rear q /\ rear q' = rear q /\
    getElements q' = Ret 0 q'.
Proof.
  intros Hq Ha.
  exists ((rear q - front q) `mod` max q), (queued q), (set_front (rear q) q).
  split; [apply getElements_eq; assumption|].
  split; [apply drain_all; assumption|].
  split; [apply queued_length; assumption|].
  split; [apply queued_allocated; assumption|].
  split; [reflexivity|]. split; [reflexivity|].
  rewrite getElements_eq by (apply in_range_set_front; [assumption | apply Hq]).
  simpl. rewrite Z.sub_diag, Z.mod_0_l; [reflexivity|].
  destruct Hq as [Hm _ _]. lia.
Qed.

Lemma drain_takes_every_frame_witness :
  exists n ps q',
    getElements (mock_queue 3 1) = Ret n (mock_queue 3 1) /\
    drain (S (Z.to_nat (max (mock_queue 3 1)))) (mock_queue 3 1) = Ret ps q' /\
    Z.of_nat (length ps) = n /\
    Forall (fun p => p <> NULL) ps /\
    front q' = rear (mock_queue 3 1) /\ rear q' = rear (mock_queue 3 1) /\
    getElements q' = Ret 0 q'.
Proof.
  apply (drain_takes_every_frame (mock_queue 3 1)).
  - apply mock_queue_in_range; lia.
  - apply mock_queue_allocated.
Defined.

(** X11.  First in, first out, without a copy: when the queue has room, the
    pointer that [getRear] gives is, after [addFrame], the last one that a
    consumer is handed, after every frame that was in the queue before, in
    the same order. *)
Theorem published_frame_comes_last (q : AVFramedQueue) :
  in_range q -> allocated q -> ~ full q ->
  exists p id q' ps s s',
    getRear q = Ret p q /\ p <> NULL /\
    addFrame q = Ret id q' /\
    drain (S (Z.to_nat (max q))) q = Ret ps s /\
    drain (S (Z.to_nat (max q))) q' = Ret (ps ++ [p]) s'.
Proof.
  intros Hq Ha Hnf.
  destruct (drain_after_addFrame q Hq Ha Hnf) as (a & Hget & Hdrain).
  eexists (FrameAt a), _, _, (queued q), _, _.
  split; [exact Hget|]. split; [discriminate|].
  split; [apply addFrame_eq; assumption|].
  split; [apply drain_all; assumption|].
  exact Hdrain.
Qed.

Lemma published_frame_comes_last_witness :
  exists p id q' ps s s',
    getRear (mock_queue 3 1) = Ret p (mock_queue 3 1) /\ p <> NULL /\
    addFrame (mock_queue 3 1) = Ret id q' /\
    drain (S (Z.to_nat (max (mock_queue 3 1)))) (mock_queue 3 1) = Ret ps s /\
    drain (S (Z.to_nat (max (mock_queue 3 1)))) q' = Ret (ps ++ [p]) s'.
Proof.
  apply (published_frame_comes_last (mock_queue 3 1)).
  - apply mock_queue_in_range; lia.
  - apply mock_queue_allocated.
  - intros H. vm_compute in H. discriminate.
Defined.

(** X12.  Drop-newest, for any number of slots: on a full queue the slot
    that [forceGetRear] hands out is the last one a consumer would have been
    handed, and what a consumer is handed afterwards is what it would have
    been handed before, in the same order, without that last frame. *)
Theorem forceGetRear_drops_last (q : AVFramedQueue) (fuel : nat) :
  Invariant q -> full q -> (2 <= fuel)%nat ->
  exists p q' ps s s',
    forceGetRear fuel q = Ret p q' /\
    drain (S (Z.to_nat (max q))) q' = Ret ps s /\
    drain (S (Z.to_nat (max q))) q = Ret (ps ++ [p]) s' /\
    Z.of_nat (length ps) = max q - 2.
Proof.
  intros Hinv Hfull Hfuel.
  destruct (forceGetRear_result q fuel Hinv Hfuel)
    as (p & q' & Hforce & Hget & Hp & Hfront & _ & Hq').
  destruct (Hq' Hfull) as [Hrear Hadd].
  destruct Hinv as [Hq H2 Hw Ha].
  pose proof (forceGetRear_in_range fuel q p q' Hq Hforce) as Hrange.
  destruct (forceGetRear_frame fuel q p q' Hforce) as (Hfr & Hmax & _ & _).
  assert (Ha' : allocated q').
  { intros i Hi. rewrite Hfr. apply Ha. rewrite <- Hmax. assumption. }
  assert (Hnf : ~ full q').
  { intros Hf'. rewrite (getRear_eq q' Hrange) in Hget.
    rewrite decide_True in Hget by assumption. congruence. }
  destruct (drain_after_addFrame q' Hrange Ha' Hnf) as (a & Hget' & Hdrain).
  rewrite (addFrame_eq q' Hrange) in Hadd. injection Hadd as _ Hq_eq.
  rewrite Hq_eq, Hmax in Hdrain.
  assert (p = FrameAt a) as -> by congruence.
  eexists (FrameAt a), q', (queued q'), _, _.
  split; [exact Hforce|].
  split; [rewrite <- Hmax; apply drain_all; assumption|].
  split; [exact Hdrain|].
  rewrite (queued_length q' Hrange), Hrear, Hfront, Hmax.
  destruct Hq as [Hm Hf Hr]. unfold full in Hfull.
  rewrite succ_mod in Hfull by lia. rewrite pred_mod by lia.
  rewrite diff_mod by (repeat case_decide; lia).
  repeat case_decide; lia.
Qed.

Lemma forceGetRear_drops_last_witness :
  exists p q' ps s s',
    forceGetRear 2 (mock_queue 2 1) = Ret p q' /\
    drain (S (Z.to_nat (max (mock_queue 2 1)))) q' = Ret ps s /\
    drain (S (Z.to_nat (max (mock_queue 2 1)))) (mock_queue 2 1)
      = Ret (ps ++ [p]) s' /\
    Z.of_nat (length ps) = max (mock_queue 2 1) - 2.
Proof.
  apply (forceGetRear_drops_last (mock_queue 2 1) 2).
  - apply mock_queue_invariant; lia.
  - reflexivity.
  - lia.
Defined.

(** * Further properties of construction and destruction *)

(** ** The allocation loop *)

(** What the allocation loop leaves: the [n] slots from [i] on hold the [n]
    addresses from [next] on, in order, where the frames made by [create]
    are; every other slot and every other address is as it was. *)
Lemma fill_frames_spec (create : nat -> Frame) (n : nat) :
  forall (i : nat) (h : Heap) (q : AVFramedQueue),
    (i + n <= length (frames q))%nat ->
    exists h' fs,
      fill_frames create n i (h, q) = Ret tt (h', set_frames fs q) /\
      length fs = length (frames q) /\
      next h' = (next h + n)%nat /\
      (forall k, (k < n)%nat ->
         fs !! (i + k)%nat = Some (FrameAt (next h + k)) /\
         cells h' !! (next h + k)%nat = Some (create (i + k)%nat)) /\
      (forall j, (j < i \/ i + n <= j)%nat -> fs !! j = frames q !! j) /\
      (forall a, (a < next h \/ next h + n <= a)%nat ->
         cells h' !! a = cells h !! a).
Proof.
  induction n as [|n IH]; intros i h q Hlen.
  - exists h, (frames q). destruct q. simpl.
    split; [reflexivity|]. split; [reflexivity|]. split; [lia|].
    split; [intros k Hk; lia|]. split; intros; reflexivity.
  - simpl. unfold bind at 1. unfold on_heap at 1. simpl.
    unfold bind at 1. unfold on_object at 1, store_slot. simpl.
    rewrite decide_True by lia.
    set (h1 := mkHeap (<[next h := create i]> (cells h)) (S (next h))).
    set (q1 := set_frames (<[i := FrameAt (next h)]> (frames q)) q).
    destruct (IH (S i) h1 q1) as (h' & fs & E & Hfs & Hnext & Hnew & Hold & Hheap).
    { subst q1. simpl. rewrite length_insert. lia. }
    exists h', fs. rewrite E. subst h1 q1. simpl in *.
    rewrite length_insert in Hfs.
    split; [reflexivity|]. split; [exact Hfs|]. split; [lia|].
    split; [|split].
    + intros [|k] Hk.
      * rewrite !Nat.add_0_r. split.
        -- rewrite Hold by lia. apply list_lookup_insert_eq. lia.
        -- rewrite Hheap by lia. apply lookup_insert_eq.
      * replace (i + S k)%nat with (S i + k)%nat by lia.
        replace (next h + S k)%nat with (S (next h) + k)%nat by lia.
        apply Hnew. lia.
    + intros j Hj. rewrite Hold by lia. apply list_lookup_insert_ne. lia.
    + intros a Ha. rewrite Hheap by lia. apply lookup_insert_ne. lia.
Qed.

(** The loop run from the first slot over [max] slots. *)
Lemma fill_all_spec (create : nat -> Frame) (h : Heap) (q : AVFramedQueue) :
  max q <= Z.of_nat (length (frames q)) ->
  exists h' fs,
    fill_all create (h, q) = Ret tt (h', set_frames fs q) /\
    length fs = length (frames q) /\
    next h' = (next h + Z.to_nat (max q))%nat /\
    (forall k, (k < Z.to_nat (max q))%nat ->
       fs !! k = Some (FrameAt (next h + k)) /\
       cells h' !! (next h + k)%nat = Some (create k)) /\
    (forall j, (Z.to_nat (max q) <= j)%nat -> fs !! j = frames q !! j) /\
    (forall a, (a < next h \/ next h + Z.to_nat (max q) <= a)%nat ->
       cells h' !! a = cells h !! a).
Proof.
  intros Hmax. unfold fill_all, bind, on_object, gets. simpl.
  destruct (fill_frames_spec create (Z.to_nat (max q)) 0 h q)
    as (h' & fs & E & Hfs & Hnext & Hnew & Hold & Hheap); [lia|].
  exists h', fs. split; [exact E|]. split; [exact Hfs|]. split; [exact Hnext|].
  split; [exact Hnew|]. split; [|exact Hheap].
  intros j Hj. apply Hold. lia.
Qed.

Lemma filled_distinct (fs : list FramePtr) (b n : nat) :
  (forall k, (k < n)%nat -> fs !! k = Some (FrameAt (b + k))) ->
  NoDup (take n fs).
Proof.
  intros Hnew. apply NoDup_alt. intros i j p Hi Hj.
  apply lookup_take_Some in Hi. apply lookup_take_Some in Hj.
  destruct Hi as [Hi Hin], Hj as [Hj Hjn].
  rewrite (Hnew i Hin) in Hi. rewrite (Hnew j Hjn) in Hj.
  injection Hi as <-. injection Hj as Hj. lia.
Qed.

Lemma fill_all_constructed (create : nat -> Frame) (h : Heap)
    (slots : list FramePtr) (cData : ConnectionData) (maxFrames : Z) :
  maxFrames <= Z.of_nat (length slots) ->
  exists h' fs,
    fill_all create (h, AVFramedQueue_new slots cData maxFrames) =
      Ret tt (h', set_frames fs (AVFramedQueue_new slots cData maxFrames)) /\
    constructed h h' cData maxFrames create
      (set_frames fs (AVFramedQueue_new slots cData maxFrames)).
Proof.
  intros Hfit.
  destruct (fill_all_spec create h (AVFramedQueue_new slots cData maxFrames) Hfit)
    as (h' & fs & E & _ & Hnext & Hnew & _ & Hheap).
  exists h', fs. split; [exact E|]. simpl in *.
  split; simpl; try reflexivity.
  - intros i Hi. apply Hnew. lia.
  - exact Hheap.
  - exact Hnext.
Qed.

(** A constructed queue of a sound size satisfies the invariants, has a
    frame of its own in every slot, and is empty. *)
Lemma constructed_ready (h h' : Heap) (cData : ConnectionData) (maxFrames : Z)
    (create : nat -> Frame) (b : AVFramedQueue) :
  constructed h h' cData maxFrames create b ->
  2 <= maxFrames -> 2 * maxFrames <= UINT_MODULUS ->
  Invariant b /\
  NoDup (take (Z.to_nat maxFrames) (frames b)) /\
  getElements b = Ret 0 b /\
  getFront b = Ret NULL b /\
  getRear b = Ret (FrameAt (next h)) b.
Proof.
  intros [Hmax Hfront Hrear Hcd Hframes Hold Hnext] H2 Hw.
  assert (Hq : in_range b).
  { split; rewrite ?Hmax, ?Hfront, ?Hrear; unfold UINT_MODULUS in *; lia. }
  assert (Ha : allocated b).
  { intros i Hi. rewrite Hmax in Hi. destruct (Hframes i Hi) as [E _]. eauto. }
  split; [split; rewrite ?Hmax; assumption|]. split.
  - apply (filled_distinct _ (next h)). intros k Hk.
    destruct (Hframes (Z.of_nat k)) as [E _]; [lia|].
    rewrite Nat2Z.id in E. exact E.
  - split; [|split].
    + rewrite (getElements_eq b Hq). rewrite Hrear, Hfront.
      rewrite Z.mod_0_l by lia. reflexivity.
    + rewrite (getFront_eq b). rewrite decide_True; [reflexivity|].
      unfold empty. congruence.
    + rewrite (getRear_eq b Hq). rewrite decide_False.
      * unfold slot. rewrite Hrear. destruct (Hframes 0) as [E _]; [lia|].
        rewrite E. simpl. rewrite Nat.add_0_r. reflexivity.
      * unfold full. rewrite Hrear, Hfront, Hmax.
        rewrite Z.mod_small by lia. lia.
Qed.

(** ** VideoFrameQueue *)

Lemma createNew_video_result (MAX_H264_OR_5_NAL_SIZE LENGTH_VP8 : Z)
    (slots : list FramePtr) (cData : ConnectionData) (codec : VCodecType)
    (maxFrames : Z) (pixelFormat : PixType) (extradata : list Z)
    (extradata_size : Z) (h : Heap) :
  codec = H264 \/ codec = H265 \/ codec = VP8 \/
    (codec = RAW /\ pixelFormat <> P_NONE) ->
  maxFrames <= Z.of_nat (length slots) ->
  exists q h',
    VideoFrameQueue.createNew MAX_H264_OR_5_NAL_SIZE LENGTH_VP8
      slots cData codec maxFrames pixelFormat extradata extradata_size h
      = Ret (Some q) h' /\
    VideoFrameQueue.codec q = codec /\
    VideoFrameQueue.pixelFormat q = pixelFormat /\
    VideoFrameQueue.extradata q = Some extradata /\
    VideoFrameQueue.extradata_size q = Some extradata_size /\
    constructed h h' cData maxFrames
      (fun _ => mkFrame
         match codec with
         | VP8 => InterleavedVideoBuffer VP8 LENGTH_VP8
         | RAW => InterleavedVideoPicture RAW DEFAULT_WIDTH DEFAULT_HEIGHT pixelFormat
         | _ => InterleavedVideoBuffer codec MAX_H264_OR_5_NAL_SIZE
         end 0)
      (VideoFrameQueue.base q).
Proof.
  intros Hcodec Hfit.
  unfold VideoFrameQueue.createNew, VideoFrameQueue.setup, VideoFrameQueue.new.
  destruct Hcodec as [-> | [-> | [-> | [-> Hpix]]]];
    unfold bind, gets, VideoFrameQueue.on_base; simpl;
    try (rewrite decide_False by assumption; simpl);
    match goal with
    | |- context [fill_all ?create _] =>
        destruct (fill_all_constructed create h slots cData maxFrames Hfit)
          as (h' & fs & -> & Hbuilt)
    end;
    simpl; eexists _, h'; (split; [reflexivity|]); simpl;
    repeat (split; [reflexivity|]); exact Hbuilt.
Qed.

(** X13.  [VideoFrameQueue::createNew] gives a queue for H264, H265 and VP8
    whatever the pixel format, and for RAW with a pixel format, when the
    frames asked for fit in the array.  The queue keeps the codec, the pixel
    format and the extradata it was given, is empty, and each of its slots
    holds a frame of its own: a buffer of the codec's size for H264, H265
    and VP8, a picture of the default size in the pixel format for RAW.
    The frames that were on the heap before are untouched. *)
Theorem createNew_video_builds (MAX_H264_OR_5_NAL_SIZE LENGTH_VP8 : Z)
    (slots : list FramePtr) (cData : ConnectionData) (codec : VCodecType)
    (maxFrames : Z) (pixelFormat : PixType) (extradata : list Z)
    (extradata_size : Z) (h : Heap) :
  codec = H264 \/ codec = H265 \/ codec = VP8 \/
    (codec = RAW /\ pixelFormat <> P_NONE) ->
  maxFrames <= Z.of_nat (length slots) ->
  exists q h',
    VideoFrameQueue.createNew MAX_H264_OR_5_NAL_SIZE LENGTH_VP8
      slots cData codec maxFrames pixelFormat extradata extradata_size h
      = Ret (Some q) h' /\
    VideoFrameQueue.codec q = codec /\
    VideoFrameQueue.pixelFormat q = pixelFormat /\
    VideoFrameQueue.extradata q = Some extradata /\
    VideoFrameQueue.extradata_size q = Some extradata_size /\
    constructed h h' cData maxFrames
      (fun _ => mkFrame
         match codec with
         | VP8 => InterleavedVideoBuffer VP8 LENGTH_VP8
         | RAW => InterleavedVideoPicture RAW DEFAULT_WIDTH DEFAULT_HEIGHT pixelFormat
         | _ => InterleavedVideoBuffer codec MAX_H264_OR_5_NAL_SIZE
         end 0)
      (VideoFrameQueue.base q).
Proof. apply createNew_video_result. Qed.

Lemma createNew_video_builds_witness :
  exists q h',
    VideoFrameQueue.createNew 1000000 1000000
      (replicate 10 NULL) cData_1_to_2 RAW 10 YUV420P [] 0 empty_heap
      = Ret (Some q) h' /\
    VideoFrameQueue.codec q = RAW /\
    VideoFrameQueue.pixelFormat q = YUV420P /\
    VideoFrameQueue.extradata q = Some [] /\
    VideoFrameQueue.extradata_size q = Some 0 /\
    constructed empty_heap h' cData_1_to_2 10
      (fun _ => mkFrame
         (InterleavedVideoPicture RAW DEFAULT_WIDTH DEFAULT_HEIGHT YUV420P) 0)
      (VideoFrameQueue.base q).
Proof.
  apply (createNew_video_builds 1000000 1000000 (replicate 10 NULL)
           cData_1_to_2 RAW 10 YUV420P [] 0 empty_heap).
  - right. right. right. split; [reflexivity | discriminate].
  - simpl. lia.
Defined.

(** X14.  A video queue that [createNew] gives, of two slots or more (and no
    more than the cursors can index), satisfies the invariants of the data
    model; no two of its slots share a frame; it counts no frame, [getFront]
    gives null, and [getRear] gives the frame of slot 0. *)
Theorem createNew_video_ready (MAX_H264_OR_5_NAL_SIZE LENGTH_VP8 : Z)
    (slots : list FramePtr) (cData : ConnectionData) (codec : VCodecType)
    (maxFrames : Z) (pixelFormat : PixType) (extradata : list Z)
    (extradata_size : Z) (h : Heap) :
  codec = H264 \/ codec = H265 \/ codec = VP8 \/
    (codec = RAW /\ pixelFormat <> P_NONE) ->
  maxFrames <= Z.of_nat (length slots) ->
  2 <= maxFrames -> 2 * maxFrames <= UINT_MODULUS ->
  exists q h',
    VideoFrameQueue.createNew MAX_H264_OR_5_NAL_SIZE LENGTH_VP8
      slots cData codec maxFrames pixelFormat extradata extradata_size h
      = Ret (Some q) h' /\
    Invariant (VideoFrameQueue.base q) /\
    NoDup (take (Z.to_nat maxFrames) (frames (VideoFrameQueue.base q))) /\
    getElements (VideoFrameQueue.base q) = Ret 0 (VideoFrameQueue.base q) /\
    getFront (VideoFrameQueue.base q) = Ret NULL (VideoFrameQueue.base q) /\
    getRear (VideoFrameQueue.base q) =
      Ret (FrameAt (next h)) (VideoFrameQueue.base q) /\
    frames (VideoFrameQueue.base q) !! 0%nat = Some (FrameAt (next h)).
Proof.
  intros Hcodec Hfit H2 Hw.
  destruct (createNew_video_result MAX_H264_OR_5_NAL_SIZE LENGTH_VP8 slots cData
              codec maxFrames pixelFormat extradata extradata_size h Hcodec Hfit)
    as (q & h' & E & _ & _ & _ & _ & Hbuilt).
  destruct (constructed_ready _ _ _ _ _ _ Hbuilt H2 Hw)
    as (Hinv & Hnd & Hel & Hfront & Hrear).
  exists q, h'. repeat (split; [assumption|]).
  destruct (built_frames _ _ _ _ _ _ Hbuilt 0) as [E0 _]; [lia|].
  simpl in E0. rewrite Nat.add_0_r in E0. exact E0.
Qed.

Lemma createNew_video_ready_witness :
  exists q h',
    VideoFrameQueue.createNew 1000000 1000000
      (replicate 10 NULL) cData_1_to_2 H264 10 P_NONE [] 0 empty_heap
      = Ret (Some q) h' /\
    Invariant (VideoFrameQueue.base q) /\
    NoDup (take (Z.to_nat 10) (frames (VideoFrameQueue.base q))) /\
    getElements (VideoFrameQueue.base q) = Ret 0 (VideoFrameQueue.base q) /\
    getFront (VideoFrameQueue.base q) = Ret NULL (VideoFrameQueue.base q) /\
    getRear (VideoFrameQueue.base q) =
      Ret (FrameAt (next empty_heap)) (VideoFrameQueue.base q) /\
    frames (VideoFrameQueue.base q) !! 0%nat = Some (FrameAt (next empty_heap)).
Proof.
  apply (createNew_video_ready 1000000 1000000 (replicate 10 NULL)
           cData_1_to_2 H264 10 P_NONE [] 0 empty_heap).
  - left. reflexivity.
  - simpl. lia.
  - lia.
  - unfold UINT_MODULUS. lia.
Defined.

(** ** AudioFrameQueue *)

(** The steps of [AudioFrameQueue::setup] that end in the loop for
    interleaved or for planar frames. *)
Ltac run_audio_setup Hfit :=
  unfold AudioFrameQueue.createNew, AudioFrameQueue.setup, AudioFrameQueue.new,
    AudioFrameQueue.fill_interleaved, AudioFrameQueue.fill_planar,
    AudioFrameQueue.this, AudioFrameQueue.update,
    bind, gets, modify, AudioFrameQueue.on_base;
  simpl;
  repeat (first [ rewrite decide_True by tauto
                | rewrite decide_False by (intros [?|[?|?]]; discriminate) ];
          simpl);
  match goal with
  | |- context [fill_all ?create (?h, AVFramedQueue_new ?slots ?cData ?maxFrames)] =>
      let h' := fresh "h'" in
      let fs := fresh "fs" in
      let Hbuilt := fresh "Hbuilt" in
      destruct (fill_all_constructed create h slots cData maxFrames Hfit)
        as (h' & fs & -> & Hbuilt);
      simpl; eexists _, h'; (split; [reflexivity|]); simpl;
      repeat (split; [reflexivity|]); exact Hbuilt
  end.

(** X15.  For PCM and PCMU [AudioFrameQueue::createNew] keeps the sample
    format asked for, the sample rate and the channels, and fills the queue
    with interleaved frames when the format is U8, S16 or FLT, with planar
    frames when it is U8P, S16P or FLTP; each frame is made for
    [getMaxSamples(sampleRate)] samples. *)
Theorem createNew_audio_pcm (getMaxSamples : Z -> Z)
    (slots : list FramePtr) (cData : ConnectionData) (codec : ACodecType)
    (maxFrames sampleRate channels : Z) (sFmt : SampleFmt)
    (extradata : list Z) (extradata_size : Z) (h : Heap) :
  codec = PCM \/ codec = PCMU ->
  sFmt = U8 \/ sFmt = S16 \/ sFmt = FLT \/
    sFmt = U8P \/ sFmt = S16P \/ sFmt = FLTP ->
  maxFrames <= Z.of_nat (length slots) ->
  exists q h',
    AudioFrameQueue.createNew getMaxSamples slots cData codec maxFrames
      sampleRate channels sFmt extradata extradata_size h = Ret (Some q) h' /\
    AudioFrameQueue.codec q = codec /\
    AudioFrameQueue.sampleFormat q = sFmt /\
    AudioFrameQueue.sampleRate q = sampleRate /\
    AudioFrameQueue.channels q = channels /\
    AudioFrameQueue.extradata q = Some extradata /\
    AudioFrameQueue.extradata_size q = Some extradata_size /\
    constructed h h' cData maxFrames
      (fun _ => mkFrame
         match sFmt with
         | U8 | S16 | FLT =>
             InterleavedAudioFrame channels sampleRate (getMaxSamples sampleRate)
               codec sFmt
         | _ =>
             PlanarAudioFrame channels sampleRate (getMaxSamples sampleRate)
               codec sFmt
         end 0)
      (AudioFrameQueue.base q).
Proof.
  intros Hcodec Hfmt Hfit.
  destruct Hcodec as [-> | ->];
    destruct Hfmt as [-> | [-> | [-> | [-> | [-> | ->]]]]];
    run_audio_setup Hfit.
Qed.

Lemma createNew_audio_pcm_witness :
  exists q h',
    AudioFrameQueue.createNew (fun sampleRate => sampleRate) (replicate 10 NULL)
      cData_1_to_2 PCM 10 48000 2 FLTP [] 0 empty_heap = Ret (Some q) h' /\
    AudioFrameQueue.codec q = PCM /\
    AudioFrameQueue.sampleFormat q = FLTP /\
    AudioFrameQueue.sampleRate q = 48000 /\
    AudioFrameQueue.channels q = 2 /\
    AudioFrameQueue.extradata q = Some [] /\
    AudioFrameQueue.extradata_size q = Some 0 /\
    constructed empty_heap h' cData_1_to_2 10
      (fun _ => mkFrame (PlanarAudioFrame 2 48000 48000 PCM FLTP) 0)
      (AudioFrameQueue.base q).
Proof.
  apply (createNew_audio_pcm (fun sampleRate => sampleRate) (replicate 10 NULL)
           cData_1_to_2 PCM 10 48000 2 FLTP [] 0 empty_heap).
  - left. reflexivity.
  - do 5 right. reflexivity.
  - simpl. lia.
Defined.

(** X16.  For G711 [AudioFrameQueue::createNew] overrides what it was
    asked: whatever the channels, the sample rate and the sample format of
    the call, the queue has one channel, 8000 Hz and U8, and its frames are
    interleaved frames made with these values. *)
Theorem createNew_audio_g711 (getMaxSamples : Z -> Z)
    (slots : list FramePtr) (cData : ConnectionData)
    (maxFrames sampleRate channels : Z) (sFmt : SampleFmt)
    (extradata : list Z) (extradata_size : Z) (h : Heap) :
  maxFrames <= Z.of_nat (length slots) ->
  exists q h',
    AudioFrameQueue.createNew getMaxSamples slots cData G711 maxFrames
      sampleRate channels sFmt extradata extradata_size h = Ret (Some q) h' /\
    AudioFrameQueue.codec q = G711 /\
    AudioFrameQueue.sampleFormat q = U8 /\
    AudioFrameQueue.sampleRate q = 8000 /\
    AudioFrameQueue.channels q = 1 /\
    constructed h h' cData maxFrames
      (fun _ => mkFrame
         (InterleavedAudioFrame 1 8000 (getMaxSamples 8000) G711 U8) 0)
      (AudioFrameQueue.base q).
Proof. intros Hfit. run_audio_setup Hfit. Qed.

Lemma createNew_audio_g711_witness :
  exists q h',
    AudioFrameQueue.createNew (fun sampleRate => sampleRate) (replicate 10 NULL)
      cData_1_to_2 G711 10 48000 2 FLTP [] 0 empty_heap = Ret (Some q) h' /\
    AudioFrameQueue.codec q = G711 /\
    AudioFrameQueue.sampleFormat q = U8 /\
    AudioFrameQueue.sampleRate q = 8000 /\
    AudioFrameQueue.channels q = 1 /\
    constructed empty_heap h' cData_1_to_2 10
      (fun _ => mkFrame (InterleavedAudioFrame 1 8000 8000 G711 U8) 0)
      (AudioFrameQueue.base q).
Proof.
  apply (createNew_audio_g711 (fun sampleRate => sampleRate) (replicate 10 NULL)
           cData_1_to_2 10 48000 2 FLTP [] 0 empty_heap).
  simpl. lia.
Defined.

(** X17.  For OPUS, AAC and MP3 the frames of the queue are interleaved
    frames made with the sample format S16, not with the one asked for, and
    with the sample rate and the channels of the call. *)
Theorem createNew_audio_compressed_frames (getMaxSamples : Z -> Z)
    (slots : list FramePtr) (cData : ConnectionData) (codec : ACodecType)
    (maxFrames sampleRate channels : Z) (sFmt : SampleFmt)
    (extradata : list Z) (extradata_size : Z) (h : Heap) :
  codec = OPUS \/ codec = AAC \/ codec = MP3 ->
  maxFrames <= Z.of_nat (length slots) ->
  exists q h',
    AudioFrameQueue.createNew getMaxSamples slots cData codec maxFrames
      sampleRate channels sFmt extradata extradata_size h = Ret (Some q) h' /\
    AudioFrameQueue.extradata q = Some extradata /\
    AudioFrameQueue.extradata_size q = Some extradata_size /\
    constructed h h' cData maxFrames
      (fun _ => mkFrame
         (InterleavedAudioFrame channels sampleRate (getMaxSamples sampleRate)
            codec S16) 0)
      (AudioFrameQueue.base q).
Proof.
  intros Hcodec Hfit.
  destruct Hcodec as [-> | [-> | ->]]; run_audio_setup Hfit.
Qed.

Lemma createNew_audio_compressed_frames_witness :
  exists q h',
    AudioFrameQueue.createNew (fun sampleRate => sampleRate) (replicate 10 NULL)
      cData_1_to_2 AAC 10 48000 2 FLTP [] 0 empty_heap = Ret (Some q) h' /\
    AudioFrameQueue.extradata q = Some [] /\
    AudioFrameQueue.extradata_size q = Some 0 /\
    constructed empty_heap h' cData_1_to_2 10
      (fun _ => mkFrame (InterleavedAudioFrame 2 48000 48000 AAC S16) 0)
      (AudioFrameQueue.base q).
Proof.
  apply (createNew_audio_compressed_frames (fun sampleRate => sampleRate)
           (replicate 10 NULL) cData_1_to_2 AAC 10 48000 2 FLTP [] 0 empty_heap).
  - right. left. reflexivity.
  - simpl. lia.
Defined.

Lemma createNew_audio_failure (getMaxSamples : Z -> Z)
    (slots : list FramePtr) (cData : ConnectionData) (codec : ACodecType)
    (maxFrames sampleRate channels : Z) (sFmt : SampleFmt)
    (extradata : list Z) (extradata_size : Z) (h : Heap) :
  (codec <> OPUS /\ codec <> AAC /\ codec <> MP3 /\
   codec <> PCM /\ codec <> PCMU /\ codec <> G711) \/
  ((codec = PCM \/ codec = PCMU) /\
   sFmt <> U8 /\ sFmt <> S16 /\ sFmt <> FLT /\
   sFmt <> U8P /\ sFmt <> S16P /\ sFmt <> FLTP) ->
  AudioFrameQueue.setup getMaxSamples
    (h, AudioFrameQueue.new slots cData codec maxFrames sFmt sampleRate channels)
    = Ret false
        (h, AudioFrameQueue.new slots cData codec maxFrames sFmt sampleRate channels) /\
  AudioFrameQueue.createNew getMaxSamples slots cData codec maxFrames
    sampleRate channels sFmt extradata extradata_size h
    = match AVFramedQueue_delete (h, AVFramedQueue_new slots cData maxFrames) with
      | Ret _ (h', _) => Ret None h'
      | Undefined => Undefined
      | OutOfFuel => OutOfFuel
      end.
Proof.
  intros Hcond.
  assert (Hsetup :
    AudioFrameQueue.setup getMaxSamples
      (h, AudioFrameQueue.new slots cData codec maxFrames sFmt sampleRate channels)
    = Ret false
        (h, AudioFrameQueue.new slots cData codec maxFrames sFmt sampleRate channels)).
  { destruct Hcond as [Hcodec | [Hcodec Hfmt]].
    - destruct codec; first [reflexivity | tauto].
    - unfold AudioFrameQueue.setup, AudioFrameQueue.new, AudioFrameQueue.this,
        bind, gets.
      destruct Hcodec as [-> | ->]; simpl;
        rewrite decide_False by tauto; rewrite decide_False by tauto;
        reflexivity. }
  split; [exact Hsetup|].
  unfold AudioFrameQueue.createNew. rewrite Hsetup.
  unfold AudioFrameQueue.on_base, AudioFrameQueue.new. simpl.
  destruct (AVFramedQueue_delete (h, AVFramedQueue_new slots cData maxFrames))
    as [u [h' b']| |]; reflexivity.
Qed.

(** X18.  For a codec that is none of the six it knows, and for PCM or PCMU
    with a sample format that is none of U8, S16, FLT, U8P, S16P and FLTP,
    [AudioFrameQueue::setup] fails, having filled no slot.  [createNew] then
    deletes the queue, and the destructor deletes the frame of each of the
    [maxFrames] slots, which are as the storage held them: with null
    pointers there, [createNew] returns null and the heap is as it was; with
    a pointer to no live frame there, what it does is undefined; and
    whenever it returns, it returns null, having deleted every frame that
    one of these slots pointed to. *)
Theorem createNew_audio_rejected (getMaxSamples : Z -> Z)
    (slots : list FramePtr) (cData : ConnectionData) (codec : ACodecType)
    (maxFrames sampleRate channels : Z) (sFmt : SampleFmt)
    (extradata : list Z) (extradata_size : Z) (h : Heap) :
  (codec <> OPUS /\ codec <> AAC /\ codec <> MP3 /\
   codec <> PCM /\ codec <> PCMU /\ codec <> G711) \/
  ((codec = PCM \/ codec = PCMU) /\
   sFmt <> U8 /\ sFmt <> S16 /\ sFmt <> FLT /\
   sFmt <> U8P /\ sFmt <> S16P /\ sFmt <> FLTP) ->
  value (AudioFrameQueue.setup getMaxSamples
           (h, AudioFrameQueue.new slots cData codec maxFrames sFmt
                 sampleRate channels))
    = Some false /\
  ((forall i, 0 <= i < maxFrames -> slots !! Z.to_nat i = Some NULL) ->
   AudioFrameQueue.createNew getMaxSamples slots cData codec maxFrames
     sampleRate channels sFmt extradata extradata_size h = Ret None h) /\
  (forall i a,
     0 <= i < maxFrames -> slots !! Z.to_nat i = Some (FrameAt a) ->
     cells h !! a = None ->
     AudioFrameQueue.createNew getMaxSamples slots cData codec maxFrames
       sampleRate channels sFmt extradata extradata_size h = Undefined) /\
  (forall r h',
     AudioFrameQueue.createNew getMaxSamples slots cData codec maxFrames
       sampleRate channels sFmt extradata extradata_size h = Ret r h' ->
     r = None /\
     forall i a,
       0 <= i < maxFrames -> slots !! Z.to_nat i = Some (FrameAt a) ->
       cells h' !! a = None).
Proof.
  intros Hcond.
  destruct (createNew_audio_failure getMaxSamples slots cData codec maxFrames
              sampleRate channels sFmt extradata extradata_size h Hcond)
    as [Hsetup ->].
  split; [rewrite Hsetup; reflexivity|]. split; [|split].
  - intros Hnull. rewrite delete_unfilled_null by exact Hnull. reflexivity.
  - intros i a Hi Ei Hdead.
    rewrite (delete_unfilled_dead slots cData maxFrames h i a Hi Ei Hdead).
    reflexivity.
  - intros r h'.
    destruct (AVFramedQueue_delete (h, AVFramedQueue_new slots cData maxFrames))
      as [u [h1 b1]| |] eqn:Ed; try discriminate.
    intros [= <- <-]. split; [reflexivity|].
    intros i a Hi Ei.
    exact (delete_unfilled_deleted slots cData maxFrames h h1 b1 u i a Ed Hi Ei).
Qed.

Lemma createNew_audio_rejected_witness :
  value (AudioFrameQueue.setup (fun sampleRate => sampleRate)
           (empty_heap, AudioFrameQueue.new (replicate 10 NULL) cData_1_to_2 PCM 10
                          (S_other 7) 48000 2))
    = Some false /\
  ((forall i, 0 <= i < 10 -> replicate 10 NULL !! Z.to_nat i = Some NULL) ->
   AudioFrameQueue.createNew (fun sampleRate => sampleRate) (replicate 10 NULL)
     cData_1_to_2 PCM 10 48000 2 (S_other 7) [] 0 empty_heap
     = Ret None empty_heap) /\
  (forall i a,
     0 <= i < 10 -> replicate 10 NULL !! Z.to_nat i = Some (FrameAt a) ->
     cells empty_heap !! a = None ->
     AudioFrameQueue.createNew (fun sampleRate => sampleRate) (replicate 10 NULL)
       cData_1_to_2 PCM 10 48000 2 (S_other 7) [] 0 empty_heap = Undefined) /\
  (forall r h',
     AudioFrameQueue.createNew (fun sampleRate => sampleRate) (replicate 10 NULL)
       cData_1_to_2 PCM 10 48000 2 (S_other 7) [] 0 empty_heap = Ret r h' ->
     r = None /\
     forall i a,
       0 <= i < 10 -> replicate 10 NULL !! Z.to_nat i = Some (FrameAt a) ->
       cells h' !! a = None).
Proof.
  apply (createNew_audio_rejected (fun sampleRate => sampleRate)
           (replicate 10 NULL) cData_1_to_2 PCM 10 48000 2 (S_other 7) [] 0
           empty_heap).
  right. split; [left; reflexivity|]. repeat split; discriminate.
Defined.

(** ** The bounds of the array *)

Lemma fill_frames_overflow (create : nat -> Frame) (n : nat) :
  forall (i : nat) (h : Heap) (q : AVFramedQueue),
    (i <= length (frames q) < i + n)%nat ->
    fill_frames create n i (h, q) = Undefined.
Proof.
  induction n as [|n IH]; intros i h q Hlen; [lia|].
  simpl. unfold bind at 1. unfold on_heap at 1. simpl.
  unfold bind at 1. unfold on_object at 1, store_slot. simpl.
  destruct (decide (i < length (frames q))%nat) as [Hi | Hi]; [|reflexivity].
  apply IH. simpl. rewrite length_insert. lia.
Qed.

Lemma fill_all_overflow (create : nat -> Frame) (h : Heap) (q : AVFramedQueue) :
  Z.of_nat (length (frames q)) < max q ->
  fill_all create (h, q) = Undefined.
Proof.
  intros Hmax. unfold fill_all, bind, on_object, gets. simpl.
  apply fill_frames_overflow. lia.
Qed.

(** X19.  Neither constructor compares the number of frames with the size of
    the array: when more frames are asked for than the array has slots, the
    allocation loop of [VideoFrameQueue::createNew] (for a codec it accepts)
    and of the mock-up's constructor writes past the end of the array. *)
Theorem createNew_beyond_array (MAX_H264_OR_5_NAL_SIZE LENGTH_VP8 : Z)
    (slots : list FramePtr) (cData : ConnectionData) (codec : VCodecType)
    (maxFrames : Z) (pixelFormat : PixType) (extradata : list Z)
    (extradata_size : Z) (h : Heap) :
  codec = H264 \/ codec = H265 \/ codec = VP8 \/
    (codec = RAW /\ pixelFormat <> P_NONE) ->
  Z.of_nat (length slots) < maxFrames ->
  VideoFrameQueue.createNew MAX_H264_OR_5_NAL_SIZE LENGTH_VP8
    slots cData codec maxFrames pixelFormat extradata extradata_size h
    = Undefined /\
  AVFramedQueueMock_new slots cData maxFrames h = Undefined.
Proof.
  intros Hcodec Hbig. split.
  - unfold VideoFrameQueue.createNew, VideoFrameQueue.setup, VideoFrameQueue.new.
    destruct Hcodec as [-> | [-> | [-> | [-> Hpix]]]];
      unfold bind, gets, VideoFrameQueue.on_base; simpl;
      try (rewrite decide_False by assumption; simpl);
      rewrite fill_all_overflow by exact Hbig; reflexivity.
  - unfold AVFramedQueueMock_new, AVFramedQueueMock_config, bind.
    rewrite fill_all_overflow by exact Hbig. reflexivity.
Qed.

Lemma createNew_beyond_array_witness :
  VideoFrameQueue.createNew 1000000 1000000
    (replicate 4 NULL) cData_1_to_2 VP8 5 P_NONE [] 0 empty_heap = Undefined /\
  AVFramedQueueMock_new (replicate 4 NULL) cData_1_to_2 5 empty_heap = Undefined.
Proof.
  apply (createNew_beyond_array 1000000 1000000 (replicate 4 NULL)
           cData_1_to_2 VP8 5 P_NONE [] 0 empty_heap).
  - right. right. left. reflexivity.
  - simpl. lia.
Defined.

Lemma no_slots_undefined (q : AVFramedQueue) :
  max q = 0 ->
  getRear q = Undefined /\ addFrame q = Undefined /\
  removeFrame q = Undefined /\ flush q = Undefined /\
  forceGetFront q = Undefined /\
  (forall fuel, forceGetRear (S fuel) q = Undefined).
Proof.
  intros H0.
  assert (Hget : getRear q = Undefined).
  { unfold getRear, bind, gets, urem. rewrite H0. reflexivity. }
  repeat split.
  - exact Hget.
  - unfold addFrame, bind, gets, urem. rewrite H0. reflexivity.
  - unfold removeFrame, bind, gets, urem. rewrite H0. reflexivity.
  - unfold flush, bind, gets, urem. rewrite H0. reflexivity.
  - unfold forceGetFront, bind, gets, urem. rewrite H0. reflexivity.
  - intros fuel. simpl. unfold bind. rewrite Hget. reflexivity.
Qed.

(** X20.  Neither does a constructor refuse a queue of no slot:
    [VideoFrameQueue::createNew] with [maxFrames = 0] and a codec it accepts
    gives a queue, having allocated nothing; on this queue [getFront] gives
    null and [getElements] 0, but [getRear], [addFrame], [removeFrame],
    [flush], [forceGetRear] and [forceGetFront] all take a remainder by
    zero. *)
Theorem createNew_no_slot (MAX_H264_OR_5_NAL_SIZE LENGTH_VP8 : Z)
    (slots : list FramePtr) (cData : ConnectionData) (codec : VCodecType)
    (pixelFormat : PixType) (extradata : list Z) (extradata_size : Z) (h : Heap) :
  codec = H264 \/ codec = H265 \/ codec = VP8 \/
    (codec = RAW /\ pixelFormat <> P_NONE) ->
  exists q,
    VideoFrameQueue.createNew MAX_H264_OR_5_NAL_SIZE LENGTH_VP8
      slots cData codec 0 pixelFormat extradata extradata_size h
      = Ret (Some q) h /\
    getFront (VideoFrameQueue.base q) = Ret NULL (VideoFrameQueue.base q) /\
    getElements (VideoFrameQueue.base q) = Ret 0 (VideoFrameQueue.base q) /\
    getRear (VideoFrameQueue.base q) = Undefined /\
    addFrame (VideoFrameQueue.base q) = Undefined /\
    removeFrame (VideoFrameQueue.base q) = Undefined /\
    flush (VideoFrameQueue.base q) = Undefined /\
    forceGetFront (VideoFrameQueue.base q) = Undefined /\
    (forall fuel, forceGetRear (S fuel) (VideoFrameQueue.base q) = Undefined).
Proof.
  intros Hcodec.
  assert (Hnew : exists q,
    VideoFrameQueue.createNew MAX_H264_OR_5_NAL_SIZE LENGTH_VP8
      slots cData codec 0 pixelFormat extradata extradata_size h
      = Ret (Some q) h /\
    VideoFrameQueue.base q = AVFramedQueue_new slots cData 0).
  { unfold VideoFrameQueue.createNew, VideoFrameQueue.setup, VideoFrameQueue.new.
    destruct Hcodec as [-> | [-> | [-> | [-> Hpix]]]];
      unfold bind, gets, VideoFrameQueue.on_base; simpl;
      try (rewrite decide_False by assumption; simpl);
      (eexists; split; [reflexivity|]); destruct slots; reflexivity. }
  destruct Hnew as (q & E & Hbase). exists q. split; [exact E|].
  rewrite Hbase. split; [reflexivity|]. split; [reflexivity|].
  apply no_slots_undefined. reflexivity.
Qed.

Lemma createNew_no_slot_witness :
  exists q,
    VideoFrameQueue.createNew 1000000 1000000
      (replicate 4 NULL) cData_1_to_2 H265 0 P_NONE [] 0 empty_heap
      = Ret (Some q) empty_heap /\
    getFront (VideoFrameQueue.base q) = Ret NULL (VideoFrameQueue.base q) /\
    getElements (VideoFrameQueue.base q) = Ret 0 (VideoFrameQueue.base q) /\
    getRear (VideoFrameQueue.base q) = Undefined /\
    addFrame (VideoFrameQueue.base q) = Undefined /\
    removeFrame (VideoFrameQueue.base q) = Undefined /\
    flush (VideoFrameQueue.base q) = Undefined /\
    forceGetFront (VideoFrameQueue.base q) = Undefined /\
    (forall fuel, forceGetRear (S fuel) (VideoFrameQueue.base q) = Undefined).
Proof.
  apply (createNew_no_slot 1000000 1000000 (replicate 4 NULL) cData_1_to_2
           H265 P_NONE [] 0 empty_heap).
  right. left. reflexivity.
Defined.

(** ** The mock-up queue *)

(** X21.  The constructor of the mock-up queue numbers its frames from 1:
    the frame of slot [i] has the sequence number [i + 1], for a queue of
    any number of slots that fits in the array. *)
Theorem mock_frames_numbered (slots : list FramePtr) (cData : ConnectionData)
    (maxFrames : Z) (h : Heap) :
  maxFrames <= Z.of_nat (length slots) -> maxFrames < UINT_MODULUS ->
  exists q h',
    AVFramedQueueMock_new slots cData maxFrames h = Ret q h' /\
    max q = maxFrames /\ front q = 0 /\ rear q = 0 /\
    connectionData q = cData /\
    forall i, 0 <= i < maxFrames ->
      exists p, frames q !! Z.to_nat i = Some p /\ seq_of h' p = Some (i + 1).
Proof.
  intros Hfit Hword.
  unfold AVFramedQueueMock_new, AVFramedQueueMock_config, bind.
  destruct (fill_all_constructed
              (fun i => FrameMock_createNew (uadd (Z.of_nat i) 1))
              h slots cData maxFrames Hfit) as (h' & fs & -> & Hbuilt).
  destruct Hbuilt as [Hmax Hfront Hrear Hcd Hframes _ _].
  unfold ret. eexists _, h'. split; [reflexivity|].
  repeat (split; [assumption|]).
  intros i Hi. destruct (Hframes i Hi) as [E Hcell].
  eexists. split; [exact E|].
  unfold seq_of. simpl. rewrite Hcell. simpl. f_equal.
  unfold uadd, wrap. rewrite Z2Nat.id by lia.
  unfold UINT_MODULUS in *. apply Z.mod_small. lia.
Qed.

Lemma mock_frames_numbered_witness :
  exists q h',
    AVFramedQueueMock_new (replicate 4 NULL) cData_1_to_2 4 empty_heap = Ret q h' /\
    max q = 4 /\ front q = 0 /\ rear q = 0 /\
    connectionData q = cData_1_to_2 /\
    forall i, 0 <= i < 4 ->
      exists p, frames q !! Z.to_nat i = Some p /\ seq_of h' p = Some (i + 1).
Proof.
  apply (mock_frames_numbered (replicate 4 NULL) cData_1_to_2 4 empty_heap).
  - simpl. lia.
  - unfold UINT_MODULUS. lia.
Defined.

(** ** The destructor *)

(** The loop of the destructor over [n] slots from [i] on that hold the [n]
    addresses from [b] on, all of them live: it ends well, and these
    addresses are all it takes off the heap. *)
Lemma delete_frames_spec (n : nat) :
  forall (i b : nat) (h : Heap) (q : AVFramedQueue),
    (forall k, (k < n)%nat ->
       frames q !! (i + k)%nat = Some (FrameAt (b + k)) /\
       is_Some (cells h !! (b + k)%nat)) ->
    exists h',
      delete_frames n i (h, q) = Ret tt (h', q) /\
      next h' = next h /\
      forall a, cells h' !! a =
                if decide (b <= a < b + n)%nat then None else cells h !! a.
Proof.
  induction n as [|n IH]; intros i b h q Hslots.
  - exists h. split; [reflexivity|]. split; [reflexivity|].
    intros a. rewrite decide_False by lia. reflexivity.
  - destruct (Hslots 0%nat) as [E0 [f0 Hf0]]; [lia|].
    rewrite !Nat.add_0_r in *.
    simpl. unfold bind at 1. unfold on_object at 1, slot. simpl.
    rewrite Nat2Z.id, E0.
    unfold bind at 1. unfold on_heap at 1, delete_frame. simpl. rewrite Hf0.
    destruct (IH (S i) (S b) (mkHeap (delete b (cells h)) (next h)) q)
      as (h' & E & Hnext & Hcells).
    { intros k Hk. destruct (Hslots (S k)) as [Ek Hk']; [lia|].
      replace (S i + k)%nat with (i + S k)%nat by lia.
      replace (S b + k)%nat with (b + S k)%nat by lia.
      split; [exact Ek|]. simpl. rewrite lookup_delete_ne by lia. exact Hk'. }
    exists h'. split; [exact E|]. split; [exact Hnext|].
    intros a. rewrite Hcells. simpl.
    destruct (decide (a = b)) as [-> | Hab].
    + rewrite decide_False by lia. rewrite decide_True by lia.
      apply lookup_delete_eq.
    + rewrite lookup_delete_ne by congruence.
      repeat case_decide; try reflexivity; lia.
Qed.

Lemma delete_constructed (h h' : Heap) (cData : ConnectionData) (maxFrames : Z)
    (create : nat -> Frame) (b : AVFramedQueue) :
  heap_wf h -> constructed h h' cData maxFrames create b ->
  exists h'',
    AVFramedQueue_delete (h', b) = Ret tt (h'', b) /\ cells h'' = cells h.
Proof.
  intros Hwf [Hmax Hfront Hrear Hcd Hframes Hold Hnext].
  unfold AVFramedQueue_delete, bind, on_object, gets. simpl. rewrite Hmax.
  destruct (delete_frames_spec (Z.to_nat maxFrames) 0 (next h) h' b)
    as (h'' & E & _ & Hcells).
  { intros k Hk. destruct (Hframes (Z.of_nat k)) as [Ek Hcell]; [lia|].
    rewrite Nat2Z.id in Ek, Hcell. simpl. split; [exact Ek|].
    rewrite Hcell. eexists. reflexivity. }
  exists h''. split; [exact E|].
  apply map_eq. intros a. rewrite Hcells. case_decide as Hin.
  - symmetry. apply Hwf. lia.
  - apply Hold. lia.
Qed.

(** X22.  The destructor gives back exactly what the constructor took: run
    on a video queue that [createNew] has just made, it ends well and
    leaves on the heap the frames that were there before [createNew], and
    no other.  The same holds of the mock-up queue. *)
Theorem destructor_undoes_createNew (MAX_H264_OR_5_NAL_SIZE LENGTH_VP8 : Z)
    (slots : list FramePtr) (cData : ConnectionData) (codec : VCodecType)
    (maxFrames : Z) (pixelFormat : PixType) (extradata : list Z)
    (extradata_size : Z) (h : Heap) :
  heap_wf h ->
  codec = H264 \/ codec = H265 \/ codec = VP8 \/
    (codec = RAW /\ pixelFormat <> P_NONE) ->
  maxFrames <= Z.of_nat (length slots) ->
  (exists q h' h'',
     VideoFrameQueue.createNew MAX_H264_OR_5_NAL_SIZE LENGTH_VP8
       slots cData codec maxFrames pixelFormat extradata extradata_size h
       = Ret (Some q) h' /\
     AVFramedQueue_delete (h', VideoFrameQueue.base q)
       = Ret tt (h'', VideoFrameQueue.base q) /\
     cells h'' = cells h) /\
  (exists q h' h'',
     AVFramedQueueMock_new slots cData maxFrames h = Ret q h' /\
     AVFramedQueue_delete (h', q) = Ret tt (h'', q) /\
     cells h'' = cells h).
Proof.
  intros Hwf Hcodec Hfit. split.
  - destruct (createNew_video_result MAX_H264_OR_5_NAL_SIZE LENGTH_VP8 slots cData
                codec maxFrames pixelFormat extradata extradata_size h Hcodec Hfit)
      as (q & h' & E & _ & _ & _ & _ & Hbuilt).
    destruct (delete_constructed _ _ _ _ _ _ Hwf Hbuilt) as (h'' & Ed & Hcells).
    exists q, h', h''. auto.
  - unfold AVFramedQueueMock_new, AVFramedQueueMock_config, bind.
    destruct (fill_all_constructed
                (fun i => FrameMock_createNew (uadd (Z.of_nat i) 1))
                h slots cData maxFrames Hfit) as (h' & fs & -> & Hbuilt).
    destruct (delete_constructed _ _ _ _ _ _ Hwf Hbuilt) as (h'' & Ed & Hcells).
    unfold ret. eexists _, h', h''. split; [reflexivity|]. auto.
Qed.

Lemma empty_heap_wf : heap_wf empty_heap.
Proof. intros a _. apply lookup_empty. Qed.

Lemma destructor_undoes_createNew_witness :
  (exists q h' h'',
     VideoFrameQueue.createNew 1000000 1000000
       (replicate 10 NULL) cData_1_to_2 H264 10 P_NONE [] 0 empty_heap
       = Ret (Some q) h' /\
     AVFramedQueue_delete (h', VideoFrameQueue.base q)
       = Ret tt (h'', VideoFrameQueue.base q) /\
     cells h'' = cells empty_heap) /\
  (exists q h' h'',
     AVFramedQueueMock_new (replicate 10 NULL) cData_1_to_2 10 empty_heap
       = Ret q h' /\
     AVFramedQueue_delete (h', q) = Ret tt (h'', q) /\
     cells h'' = cells empty_heap).
Proof.
  apply (destructor_undoes_createNew 1000000 1000000 (replicate 10 NULL)
           cData_1_to_2 H264 10 P_NONE [] 0 empty_heap).
  - apply empty_heap_wf.
  - left. reflexivity.
  - simpl. lia.
Defined.

Lemma delete_frames_twice (n : nat) :
  forall (i0 i j : nat) (h : Heap) (q : AVFramedQueue) (a : nat),
    (i0 <= i)%nat -> (i < j)%nat -> (j < i0 + n)%nat ->
    frames q !! i = Some (FrameAt a) -> frames q !! j = Some (FrameAt a) ->
    delete_frames n i0 (h, q) = Undefined.
Proof.
  induction n as [|n IH]; intros i0 i j h q a Hi Hij Hj Ei Ej; [lia|].
  rewrite delete_frames_step.
  destruct (decide (i = i0)) as [-> | Hne].
  - rewrite Ei. simpl. destruct (cells h !! a) as [f|]; [|reflexivity].
    apply (delete_frames_dead n (S i0) j _ q a); [lia | exact Ej|].
    simpl. apply lookup_delete_eq.
  - destruct (frames q !! i0) as [p|]; [|reflexivity].
    destruct (delete_frame p h) as [u h1| |] eqn:Ed; [|reflexivity|].
    + apply (IH (S i0) i j h1 q a); [lia | lia | lia | exact Ei | exact Ej].
    + destruct p; simpl in Ed; [discriminate|].
      destruct (cells h !! a0); discriminate.
Qed.

(** X23.  The destructor deletes the frame of every slot in use, whether or
    not another slot holds the same frame: on a queue in which two slots in
    use hold one frame, it deletes a frame that is no longer there. *)
Theorem destructor_deletes_twice (h : Heap) (q : AVFramedQueue) (i j : Z) (a : nat) :
  0 <= i < j -> j < max q ->
  frames q !! Z.to_nat i = Some (FrameAt a) ->
  frames q !! Z.to_nat j = Some (FrameAt a) ->
  AVFramedQueue_delete (h, q) = Undefined.
Proof.
  intros Hij Hj Ei Ej.
  unfold AVFramedQueue_delete, bind, on_object, gets. simpl.
  apply (delete_frames_twice _ 0 (Z.to_nat i) (Z.to_nat j) h q a);
    [lia | lia | lia | exact Ei | exact Ej].
Qed.

Lemma destructor_deletes_twice_witness :
  AVFramedQueue_delete
    (mock_heap 1 2 3 4,
     mkAVFramedQueue cData_1_to_2 0 0 [FrameAt 0; FrameAt 1; FrameAt 0] 3)
  = Undefined.
Proof.
  apply (destructor_deletes_twice (mock_heap 1 2 3 4)
           (mkAVFramedQueue cData_1_to_2 0 0 [FrameAt 0; FrameAt 1; FrameAt 0] 3)
           0 2 0).
  - lia.
  - simpl. lia.
  - reflexivity.
  - reflexivity.
Defined.

(** * The slot of the producer and the slot of the consumer *)

Lemma slots_in_use_distinct (q : AVFramedQueue) (i j : Z) (p : FramePtr) :
  NoDup (take (Z.to_nat (max q)) (frames q)) ->
  0 <= i < max q -> 0 <= j < max q ->
  frames q !! Z.to_nat i = Some p -> frames q !! Z.to_nat j = Some p ->
  i = j.
Proof.
  intros Hnd Hi Hj Ei Ej.
  assert (Z.to_nat i = Z.to_nat j); [|lia].
  apply (NoDup_lookup _ _ _ p Hnd); rewrite lookup_take_lt by lia; assumption.
Qed.

(** X24.  When no two slots share a frame, the frame that [getRear] gives
    the producer to write and the frame that [getFront] gives the consumer
    to read are never the same frame. *)
Theorem rear_and_front_differ (q : AVFramedQueue) (p p' : FramePtr) :
  in_range q -> NoDup (take (Z.to_nat (max q)) (frames q)) ->
  getRear q = Ret p q -> p <> NULL ->
  getFront q = Ret p' q -> p' <> NULL ->
  p <> p'.
Proof.
  intros Hq Hnd Hrear Hp Hfront Hp' Heq. subst p'.
  rewrite (getRear_eq q Hq) in Hrear. rewrite (getFront_eq q) in Hfront.
  destruct (decide (full q)); [congruence|].
  destruct (decide (empty q)) as [|Hne]; [congruence|].
  unfold slot in *.
  destruct (frames q !! Z.to_nat (rear q)) as [pr|] eqn:Er; [|discriminate].
  destruct (frames q !! Z.to_nat (front q)) as [pf|] eqn:Ef; [|discriminate].
  injection Hrear as ->. injection Hfront as ->.
  apply Hne. unfold empty.
  apply (slots_in_use_distinct q (rear q) (front q) p Hnd); solve [apply Hq | assumption].
Qed.

Lemma rear_and_front_differ_witness : FrameAt 3 <> FrameAt 1.
Proof.
  apply (rear_and_front_differ (mock_queue 1 3) (FrameAt 3) (FrameAt 1)).
  - apply mock_queue_in_range; lia.
  - apply (bool_decide_unpack _). vm_compute. exact I.
  - reflexivity.
  - discriminate.
  - reflexivity.
  - discriminate.
Defined.

(** X25.  The slot that [forceGetRear] takes back from a full queue is a
    slot that the consumer has not read yet.  With three slots or more it is
    not the one that [getFront] gives; with two slots it is that very one,
    the frame the consumer may be reading, and the queue is then empty. *)
Theorem forced_slot_and_front (q : AVFramedQueue) (fuel : nat) :
  Invariant q -> NoDup (take (Z.to_nat (max q)) (frames q)) ->
  full q -> (2 <= fuel)%nat ->
  exists p p' q',
    forceGetRear fuel q = Ret p q' /\
    getFront q = Ret p' q /\ p' <> NULL /\
    (3 <= max q -> p <> p') /\
    (max q = 2 -> p = p' /\ getFront q' = Ret NULL q').
Proof.
  intros Hinv Hnd Hfull Hfuel.
  destruct (forceGetRear_result q fuel Hinv Hfuel)
    as (p & q' & Hforce & Hget & Hp & Hfront & _ & Hq').
  destruct (Hq' Hfull) as [Hrear _].
  destruct Hinv as [Hq H2 Hw Ha].
  pose proof (forceGetRear_in_range fuel q p q' Hq Hforce) as Hrange.
  destruct (forceGetRear_frame fuel q p q' Hforce) as (Hfr & Hmax & _ & _).
  pose proof Hq as [Hm Hf Hr].
  assert (Hslot : frames q !! Z.to_nat (rear q') = Some p).
  { rewrite (getRear_eq q' Hrange) in Hget.
    destruct (decide (full q')); [congruence|].
    unfold slot in Hget. rewrite Hfr in Hget.
    destruct (frames q !! Z.to_nat (rear q')); [congruence | discriminate]. }
  destruct (Ha (front q) Hf) as [a Ef].
  assert (Hne : rear q <> front q).
  { unfold full in Hfull. rewrite succ_mod in Hfull by lia. case_decide; lia. }
  exists p, (FrameAt a), q'. split; [exact Hforce|]. split.
  { rewrite (getFront_eq q). rewrite decide_False by exact Hne.
    unfold slot. rewrite Ef. reflexivity. }
  split; [discriminate|].
  unfold full in Hfull. rewrite succ_mod in Hfull by lia.
  rewrite pred_mod in Hrear by lia.
  split.
  - intros H3 ->.
    assert (rear q' = front q); [|repeat case_decide; lia].
    apply (slots_in_use_distinct q _ _ (FrameAt a) Hnd); try assumption.
    rewrite <- Hmax. apply Hrange.
  - intros Hmax2.
    assert (Heq : rear q' = front q) by (repeat case_decide; lia).
    split.
    + rewrite Heq in Hslot. congruence.
    + rewrite (getFront_eq q'). rewrite decide_True; [reflexivity|].
      unfold empty. congruence.
Qed.

Lemma forced_slot_and_front_witness :
  exists p p' q',
    forceGetRear 2 (mkAVFramedQueue cData_1_to_2 1 0 [FrameAt 0; FrameAt 1] 2)
      = Ret p q' /\
    getFront (mkAVFramedQueue cData_1_to_2 1 0 [FrameAt 0; FrameAt 1] 2)
      = Ret p' (mkAVFramedQueue cData_1_to_2 1 0 [FrameAt 0; FrameAt 1] 2) /\
    p' <> NULL /\
    (3 <= max (mkAVFramedQueue cData_1_to_2 1 0 [FrameAt 0; FrameAt 1] 2) ->
     p <> p') /\
    (max (mkAVFramedQueue cData_1_to_2 1 0 [FrameAt 0; FrameAt 1] 2) = 2 ->
     p = p' /\ getFront q' = Ret NULL q').
Proof.
  apply (forced_slot_and_front
           (mkAVFramedQueue cData_1_to_2 1 0 [FrameAt 0; FrameAt 1] 2) 2).
  - split.
    + split; simpl; unfold UINT_MODULUS; lia.
    + simpl. lia.
    + simpl. unfold UINT_MODULUS. lia.
    + intros i Hi. simpl in Hi.
      assert (i = 0 \/ i = 1) as [-> | ->] by lia; eexists; reflexivity.
  - apply (bool_decide_unpack _). vm_compute. exact I.
  - reflexivity.
  - lia.
Defined.
